(** * Cityescape-OpenGL: the animation clock, the keyboard handler,
      the traffic-signal phase function and the DDA line helpers of
      [main.cpp], embedded over IEEE-754 binary32 arithmetic.

    Every [float] of the C++ source is a [spec_float] of the Standard
    Library, operated on with the binary32 instance of its operations
    (24 bits of precision, infinities at exponent 128, rounding to nearest
    with ties to even): each arithmetic operation of the source is one
    correctly rounded binary32 operation, as it is where [float]
    expressions are evaluated in [float].  [fmodf] is not part of that
    library and is written out here from its C definition (the exact
    remainder of the truncated quotient).

    The OpenGL and GLUT calls are left out: [update] and [keyboard] are
    functions on the record of the global animation variables, the lamps of
    a traffic signal are the list of the lamps it lights, and a DDA helper
    returns the list of the points it passes to [glVertex2f]. *)

From Stdlib Require Import ZArith List Bool Lia Ascii.
From Stdlib Require Import Floats.SpecFloat.
Import ListNotations.
Local Open Scope Z_scope.

(** ** binary32 arithmetic *)

Definition prec : Z := 24.
Definition emax : Z := 128.

Definition float : Type := spec_float.

Definition fadd : float -> float -> float := SFadd prec emax.
Definition fsub : float -> float -> float := SFsub prec emax.
Definition fmul : float -> float -> float := SFmul prec emax.
Definition fdiv : float -> float -> float := SFdiv prec emax.
Definition fabs : float -> float := SFabs.
Definition fltb : float -> float -> bool := SFltb.
Definition fleb : float -> float -> bool := SFleb.
Definition feqb : float -> float -> bool := SFeqb.

(** [(float)i] for an integer [i]. *)
Definition of_int (i : Z) : float := binary_normalize prec emax i 0 false.

(** The literal [n/d] written in decimal in the source, e.g. [2.8f] is
    [lit 28 10]: the correctly rounded quotient of two exact integers is
    the binary32 number nearest to the decimal. *)
Definition lit (n d : Z) : float := fdiv (of_int n) (of_int d).

(** The integer [k] with [x = k * 2^e], for a finite [x] of mantissa [m]
    whose own exponent [ex] is at least [e]. *)
Definition mant_at (m : positive) (ex e : Z) : Z :=
  Z.pos (fst (shl_align m ex e)).

(** C's [fmodf x y]: [x - n*y] for [n] the quotient [x/y] truncated
    towards zero, computed exactly; it carries the sign of [x]. *)
Definition fmodf (x y : float) : float :=
  match x, y with
  | S754_nan, _ | _, S754_nan => S754_nan
  | S754_infinity _, _ => S754_nan
  | _, S754_zero _ => S754_nan
  | _, S754_infinity _ => x
  | S754_zero _, S754_finite _ _ _ => x
  | S754_finite sx mx ex, S754_finite _ my ey =>
      let ez := Z.min ex ey in
      binary_normalize prec emax
        (cond_Zopp sx (Z.rem (mant_at mx ex ez) (mant_at my ey ez))) ez sx
  end.

(** A zero or a finite number in canonical form (not NaN, not infinite). *)
Definition finite (x : float) : bool :=
  match x with
  | S754_zero _ => true
  | S754_finite _ m e => bounded prec emax m e
  | _ => false
  end.

(** The value of a finite number, counted in units of [2^-149] (the
    smallest positive binary32 number), so that it is an integer. *)
Definition val (x : float) : Z :=
  match x with
  | S754_finite s m e => cond_Zopp s (Z.pos m * 2 ^ (e + 149))
  | _ => 0
  end.

(** The value of [1.0f] in those units. *)
Definition unit : Z := 2 ^ 149.

(** The largest finite binary32 number, [FLT_MAX]. *)
Definition FLT_MAX : float := SFmax_float prec emax.

(** ** Global animation variables (main.cpp, lines 13-30) *)

Definition V_WIDTH : float := of_int 800.
Definition V_HEIGHT : float := of_int 600.

Record State := mkState {
  boatPos : float;
  boatSpeed : float;
  waterTime : float;
  trainPos : float;
  trainSpeed : float;
  paused : bool;
  trafficTimer : float
}.

Definition initial : State := {|
  boatPos := of_int (-120);
  boatSpeed := lit 12 10;
  waterTime := of_int 0;
  trainPos := of_int (-520);
  trainSpeed := lit 28 10;
  paused := false;
  trafficTimer := of_int 0
|}.

(** The tick increment [0.016f]. *)
Definition dt : float := lit 16 1000.

(** ** [update] (main.cpp, lines 890-909) *)

Definition update (s : State) : State :=
  let s1 :=
    if negb (paused s) then
      let tp := fadd (trainPos s) (trainSpeed s) in
      let tp := if fltb (fadd V_WIDTH (of_int 360)) tp
                then of_int (-760) else tp in
      let bp := fadd (boatPos s) (boatSpeed s) in
      let bp := if fltb (fadd V_WIDTH (of_int 120)) bp
                then of_int (-150) else bp in
      let tt := fadd (trafficTimer s) dt in
      let tt := if fleb (of_int 100000) tt
                then fmodf tt (of_int 100000) else tt in
      {| boatPos := bp; boatSpeed := boatSpeed s; waterTime := waterTime s;
         trainPos := tp; trainSpeed := trainSpeed s; paused := paused s;
         trafficTimer := tt |}
    else s in
  {| boatPos := boatPos s1; boatSpeed := boatSpeed s1;
     waterTime := fadd (waterTime s1) dt;
     trainPos := trainPos s1; trainSpeed := trainSpeed s1;
     paused := paused s1; trafficTimer := trafficTimer s1 |}.

(** [n] timer callbacks in a row. *)
Fixpoint ticks (n : nat) (s : State) : State :=
  match n with
  | O => s
  | S k => ticks k (update s)
  end.

(** ** [keyboard] (main.cpp, lines 912-927) *)

(** [std::max(a, b)] is [(a < b) ? b : a]. *)
Definition std_max (a b : float) : float := if fltb a b then b else a.

Definition key_ESC : ascii := ascii_of_nat 27.

(** [None] is [exit(0)]. *)
Definition keyboard (key : ascii) (s : State) : option State :=
  if Ascii.eqb key key_ESC then None
  else if Ascii.eqb key " " then
    Some {| boatPos := boatPos s; boatSpeed := boatSpeed s;
            waterTime := waterTime s; trainPos := trainPos s;
            trainSpeed := trainSpeed s; paused := negb (paused s);
            trafficTimer := trafficTimer s |}
  else if Ascii.eqb key "+" then
    Some {| boatPos := boatPos s; boatSpeed := boatSpeed s;
            waterTime := waterTime s; trainPos := trainPos s;
            trainSpeed := fadd (trainSpeed s) (lit 2 10);
            paused := paused s; trafficTimer := trafficTimer s |}
  else if Ascii.eqb key "-" then
    Some {| boatPos := boatPos s; boatSpeed := boatSpeed s;
            waterTime := waterTime s; trainPos := trainPos s;
            trainSpeed := std_max (lit 2 10)
                            (fsub (trainSpeed s) (lit 2 10));
            paused := paused s; trafficTimer := trafficTimer s |}
  else Some s.

(** The callbacks the GLUT main loop delivers. *)
Inductive Event := Tick | Key (k : ascii).

Definition step (e : Event) (s : State) : option State :=
  match e with
  | Tick => Some (update s)
  | Key k => keyboard k s
  end.

(** A run of the main loop; it ends with the process at [exit(0)]. *)
Fixpoint run (es : list Event) (s : State) : option State :=
  match es with
  | [] => Some s
  | e :: es' =>
      match step e s with
      | Some s' => run es' s'
      | None => None
      end
  end.

(** ** The lamp logic of [drawTrafficSignal] (main.cpp, lines 443-446) *)

Definition signal_t (timer phaseOffsetSec : float) : float :=
  fmodf (fadd timer phaseOffsetSec) (of_int 6).

Definition redOn (t : float) : bool := fltb t (lit 25 10).
Definition greenOn (t : float) : bool :=
  fleb (lit 25 10) t && fltb t (of_int 5).
Definition yellowOn (t : float) : bool := fleb (of_int 5) t.

Inductive Light := RED | GREEN | YELLOW.

(** The lamps lit for a value of [t], in the order the source tests them. *)
Definition lit_lamps (t : float) : list Light :=
  (if redOn t then [RED] else []) ++
  (if greenOn t then [GREEN] else []) ++
  (if yellowOn t then [YELLOW] else []).

Definition drawTrafficSignal (timer phaseOffsetSec : float) : list Light :=
  lit_lamps (signal_t timer phaseOffsetSec).

(** [drawTrafficSignals]: the left signal has offset [0.0f], the right one
    [3.0f]. *)
Definition drawTrafficSignals (timer : float) : list Light * list Light :=
  (drawTrafficSignal timer (of_int 0), drawTrafficSignal timer (of_int 3)).

(** ** The DDA line helpers (main.cpp, lines 81-120) *)

Definition Point : Type := float * float.

Definition INT_MAX : Z := 2147483647.

(** [for (int i = 0; i <= steps; i++) { glVertex2f(x, y); x += xInc;
    y += yInc; }].  [None] when the fuel runs out, and when [i++] would
    overflow [int]. *)
Fixpoint dda_loop (fuel : nat) (i : Z) (x y xInc yInc steps : float)
    : option (list Point) :=
  if fleb (of_int i) steps then
    match fuel with
    | O => None
    | S fuel' =>
        if i =? INT_MAX then None
        else
          match dda_loop fuel' (i + 1) (fadd x xInc) (fadd y yInc)
                  xInc yInc steps with
          | Some ps => Some ((x, y) :: ps)
          | None => None
          end
    end
  else Some [].

Definition drawLineDDA_steps (x1 y1 x2 y2 : float) : float :=
  let dx := fsub x2 x1 in
  let dy := fsub y2 y1 in
  if fltb (fabs dy) (fabs dx) then fabs dx else fabs dy.

Definition drawLineDDA (fuel : nat) (x1 y1 x2 y2 : float)
    : option (list Point) :=
  let dx := fsub x2 x1 in
  let dy := fsub y2 y1 in
  let steps := if fltb (fabs dy) (fabs dx) then fabs dx else fabs dy in
  let xInc := fdiv dx steps in
  let yInc := fdiv dy steps in
  dda_loop fuel 0 x1 y1 xInc yInc steps.

Definition drawLineDDA_Lamp_steps (x1 y1 x2 y2 : float) : float :=
  let dx := fsub x2 x1 in
  let dy := fsub y2 y1 in
  if fltb (fabs dy) (fabs dx) then fabs dx else fabs dy.

Definition drawLineDDA_Lamp (fuel : nat) (x1 y1 x2 y2 : float)
    : option (list Point) :=
  let dx := fsub x2 x1 in
  let dy := fsub y2 y1 in
  let steps := if fltb (fabs dy) (fabs dx) then fabs dx else fabs dy in
  let xInc := fdiv dx steps in
  let yInc := fdiv dy steps in
  dda_loop fuel 0 x1 y1 xInc yInc steps.

(** ** [drawDDALampPost] and [drawThreeDDALamps] (lines 125-145, 719-725) *)

(** The end points of a call of [drawLineDDA_Lamp]. *)
Definition Segment : Type := (float * float) * (float * float).

(** The arguments of the three calls of [drawLineDDA_Lamp] that
    [drawDDALampPost] makes: the pole, the horizontal arm, the lamp head. *)
Definition drawDDALampPost_calls (x groundY : float) : list Segment :=
  let poleHeight := of_int 170 in
  let armY := fadd groundY poleHeight in
  let headBottomY := fsub armY (of_int 12) in
  [ ((x, groundY), (x, armY));
    ((x, armY), (fadd x (of_int 22), armY));
    ((fadd x (of_int 22), armY), (fadd x (of_int 22), headBottomY)) ].

(** The calls of the three lamp posts of [drawThreeDDALamps]. *)
Definition drawThreeDDALamps_calls : list Segment :=
  let groundY := of_int 120 in
  drawDDALampPost_calls (of_int 180) groundY ++
  drawDDALampPost_calls (of_int 420) groundY ++
  drawDDALampPost_calls (of_int 660) groundY.

Definition segment_steps (sg : Segment) : float :=
  let '((x1, y1), (x2, y2)) := sg in drawLineDDA_Lamp_steps x1 y1 x2 y2.

Definition drawSegment (fuel : nat) (sg : Segment) : option (list Point) :=
  let '((x1, y1), (x2, y2)) := sg in drawLineDDA_Lamp fuel x1 y1 x2 y2.

(** The points of a sequence of calls, one after the other. *)
Fixpoint drawSegments (fuel : nat) (sgs : list Segment) : option (list Point) :=
  match sgs with
  | [] => Some []
  | sg :: rest =>
      match drawSegment fuel sg, drawSegments fuel rest with
      | Some ps, Some qs => Some (ps ++ qs)
      | _, _ => None
      end
  end.

Definition drawDDALampPost (fuel : nat) (x groundY : float) : option (list Point) :=
  drawSegments fuel (drawDDALampPost_calls x groundY).

Definition drawThreeDDALamps (fuel : nat) : option (list Point) :=
  drawSegments fuel drawThreeDDALamps_calls.

(** ** Vocabulary of the rounding lemmas *)

(** The number of binary digits of a mantissa. *)
Definition dig (p : positive) : Z := Z.pos (digits2_pos p).

(** What a right shift by [log2 P] bits keeps of [m0]: the quotient in
    [shr_m], the first bit shifted out in [shr_r] (the round bit), and in
    [shr_s] whether any later bit shifted out is set (the sticky bit). *)
Definition shr_inv (m0 P : Z) (mrs : shr_record) : Prop :=
  exists rem, m0 = shr_m mrs * P + rem /\ 0 <= shr_m mrs /\
    0 <= 2 * rem - (if shr_r mrs then P else 0) < P /\
    (shr_s mrs = true <-> 2 * rem - (if shr_r mrs then P else 0) <> 0).

(** The mantissa [m] is in canonical form at the exponent [e]: 24 digits,
    or fewer at the least exponent -149. *)
Definition canon (m : positive) (e : Z) : Prop := fexp 24 128 (dig m + e) = e.

(** The outcome of rounding [m * 2^e] to binary32: a canonical mantissa
    [m'] at an exponent [e'] (an infinity when [e'] is above 104), within a
    relative error of [2^-24]; exact when [m] has at most 24 digits; and, in
    the normal range, not far above the number rounded. *)
Definition round_outcome (s : bool) (m : positive) (e : Z) (r : spec_float) : Prop :=
  exists m' e',
    r = (if e' <=? 104 then S754_finite s m' e' else S754_infinity s) /\
    canon m' e' /\
    2 ^ 24 * Z.abs (Z.pos m' * 2 ^ (e' + 149) - Z.pos m * 2 ^ (e + 149))
      <= Z.pos m * 2 ^ (e + 149) /\
    (Z.pos m < 2 ^ 24 ->
     e' <= e /\ Z.pos m' * 2 ^ (e' + 149) = Z.pos m * 2 ^ (e + 149)) /\
    (-149 < e' -> 33554431 * 2 ^ (e' + 149) <= 4 * (Z.pos m * 2 ^ (e + 149))).

(** The least magnitude that rounds to an infinity: [2^128 - 2^103], in
    units of [2^-149]. *)
Definition max_scaled : Z := 2 ^ 277 - 2 ^ 252.

(** [r] is the exact value [z] (in units of [2^-149]) rounded to binary32:
    finite and within a relative error of [2^-24], or the infinity of the
    sign of [z] when [z] is out of range. *)
Definition rounds_to (z : Z) (r : spec_float) : Prop :=
  (finite r = true /\ 2 ^ 24 * Z.abs (val r - z) <= Z.abs z)
  \/ (r = S754_infinity (z <? 0) /\ max_scaled <= Z.abs z).

(** ** Vocabulary of the properties *)

(** [|x - cn/cd| <= tn/td], decided exactly on the value of [x]. *)
Definition within_tol (x : float) (cn cd tn td : Z) : bool :=
  finite x && (td * Z.abs (cd * val x - cn * unit) <=? tn * cd * unit).

(** The largest distance, over the [n] ticks that follow the state [s]
    reached after [k] ticks, between [trainPos] and [-520 + k*trainSpeed]
    (in units of [2^-149]). *)
Fixpoint drift_max (n : nat) (k : Z) (s : State) (acc : Z) : Z :=
  let d := Z.abs (val (trainPos s) - ((-520) * unit + k * val (trainSpeed s))) in
  let acc := Z.max acc d in
  match n with
  | O => acc
  | S n' => drift_max n' (k + 1) (update s) acc
  end.

(** No wrap of the train in the first [n] ticks after [s]. *)
Fixpoint no_wrap (n : nat) (s : State) : bool :=
  match n with
  | O => true
  | S n' =>
      negb (fltb (fadd V_WIDTH (of_int 360)) (fadd (trainPos s) (trainSpeed s)))
      && no_wrap n' (update s)
  end.

(** The bounds every field keeps along a run (values in units of
    [2^-149]). *)
Definition bounded_state (s : State) : Prop :=
  (finite (trainPos s) = true /\
   (-760) * unit <= val (trainPos s) <= 1160 * unit) /\
  (finite (boatPos s) = true /\
   (-150) * unit <= val (boatPos s) <= 920 * unit) /\
  boatSpeed s = lit 12 10 /\
  (finite (trafficTimer s) = true /\
   0 <= val (trafficTimer s) < 100000 * unit) /\
  (finite (trainSpeed s) = true /\
   val (lit 2 10) <= val (trainSpeed s) <= 4194304 * unit) /\
  (finite (waterTime s) = true /\
   0 <= val (waterTime s) <= 524288 * unit).

(** All the numeric fields of a state are zeros or finite numbers. *)
Definition state_finite (s : State) : bool :=
  finite (boatPos s) && finite (boatSpeed s) && finite (waterTime s) &&
  finite (trainPos s) && finite (trainSpeed s) && finite (trafficTimer s).

(** A tick clamps the field [f] when, from every unpaused state with finite
    fields, it leaves [f] below a bound that is itself below the largest
    finite binary32 number. *)
Definition clamped_by_tick (f : State -> float) : Prop :=
  exists B, finite B = true /\ fltb B FLT_MAX = true /\
    forall s, state_finite s = true -> paused s = false ->
              fleb (f (update s)) B = true.

(** The same for the handler of the key [k]. *)
Definition clamped_by_key (k : ascii) (f : State -> float) : Prop :=
  exists B, finite B = true /\ fltb B FLT_MAX = true /\
    forall s s', state_finite s = true -> keyboard k s = Some s' ->
                 fleb (f s') B = true.

(** ** Vocabulary of the runs *)

Definition is_ESC (e : Event) : bool :=
  match e with Key k => Ascii.eqb k key_ESC | Tick => false end.

Definition is_key (e : Event) : bool :=
  match e with Key _ => true | Tick => false end.

Definition is_space (e : Event) : bool :=
  match e with Key k => Ascii.eqb k " " | Tick => false end.

(** ** The reflection streaks of [drawAnimatedWater] (main.cpp, lines
    697-705): the position of the [i]-th streak.  The [int] operands [i]
    and [V_WIDTH] are converted to [float]; every product and sum is
    rounded on its own (no fused multiply-add). *)

Definition streak_y (i : Z) (waterTime waterTopY : float) : float :=
  fmodf (fadd (fmul (of_int i) (of_int 14)) (fmul waterTime (of_int 22)))
        waterTopY.

Definition streak_x (i : Z) (waterTime : float) : float :=
  fmodf (fadd (fmul (of_int i) (of_int 63)) (fmul waterTime (of_int 40)))
        V_WIDTH.

(** The corners [(x, y)] of the 40 streak rectangles, in drawing order. *)
Definition drawAnimatedWater_streaks (waterTime waterTopY : float) : list Point :=
  map (fun i => (streak_x (Z.of_nat i) waterTime,
                 streak_y (Z.of_nat i) waterTime waterTopY))
      (seq 0 40).

(** The animation clock is zero or at least [2^-51] (values in units of
    [2^-149]): the range on which its products are free of underflow. *)
Definition clock_granular (s : State) : Prop :=
  val (waterTime s) = 0 \/ 2 ^ 98 <= Z.abs (val (waterTime s)).

(** * binary32 rounding, in terms of values *)

Module F32.

Lemma dig_pos p : 1 <= dig p.
Proof. unfold dig. lia. Qed.

Lemma dig_bounds p : 2 ^ (dig p - 1) <= Z.pos p < 2 ^ dig p.
Proof.
  unfold dig. induction p as [p IH | p IH |]; cbn [digits2_pos].
  - rewrite Pos2Z.inj_succ. change (Z.pos p~1) with (2 * Z.pos p + 1).
    replace (Z.succ (Z.pos (digits2_pos p)) - 1) with (Z.succ (Z.pos (digits2_pos p) - 1)) by lia.
    rewrite !Z.pow_succ_r by lia.
    revert IH. generalize (2 ^ (Z.pos (digits2_pos p) - 1)) (2 ^ Z.pos (digits2_pos p)). lia.
  - rewrite Pos2Z.inj_succ. change (Z.pos p~0) with (2 * Z.pos p).
    replace (Z.succ (Z.pos (digits2_pos p)) - 1) with (Z.succ (Z.pos (digits2_pos p) - 1)) by lia.
    rewrite !Z.pow_succ_r by lia.
    revert IH. generalize (2 ^ (Z.pos (digits2_pos p) - 1)) (2 ^ Z.pos (digits2_pos p)). lia.
  - cbn. lia.
Qed.

Lemma pow2_pos n : 0 <= n -> 0 < 2 ^ n.
Proof. intros. apply Z.pow_pos_nonneg; lia. Qed.

Lemma pow2_split a b : 0 <= a -> 0 <= b -> 2 ^ (a + b) = 2 ^ a * 2 ^ b.
Proof. intros. apply Z.pow_add_r; lia. Qed.

Lemma pow2_le a b : 0 <= a <= b -> 2 ^ a <= 2 ^ b.
Proof. intros. apply Z.pow_le_mono_r; lia. Qed.

Lemma pow2_lt a b : 0 <= a < b -> 2 ^ a < 2 ^ b.
Proof. intros. apply Z.pow_lt_mono_r; lia. Qed.

Lemma dig_unique p d : 2 ^ (d - 1) <= Z.pos p < 2 ^ d -> dig p = d.
Proof.
  intros [H1 H2]. pose proof (dig_bounds p) as [B1 B2]. pose proof (dig_pos p).
  assert (0 < d).
  { destruct (Z_lt_le_dec 0 d) as [|N]; [assumption|].
    assert (2 ^ d <= 1); [|lia].
    destruct (Z.eq_dec d 0) as [->|]; [cbn; lia|].
    rewrite Z.pow_neg_r; lia. }
  destruct (Z.lt_trichotomy (dig p) d) as [L | [E | G]]; [ | exact E | ].
  - pose proof (pow2_le (dig p) (d - 1)). lia.
  - pose proof (pow2_le d (dig p - 1)). lia.
Qed.

(** *** Shifts *)

Lemma iter_xO m d : Z.pos (Pos.iter xO m d) = Z.pos m * 2 ^ Z.pos d.
Proof.
  apply Pos.iter_ind with (P := fun p a => Z.pos a = Z.pos m * 2 ^ Z.pos p).
  - change (Z.pos m~0) with (2 * Z.pos m). cbn. lia.
  - intros p a IH. change (Z.pos a~0) with (2 * Z.pos a).
    rewrite IH, Pos2Z.inj_succ, Z.pow_succ_r by lia. lia.
Qed.

Lemma shl_align_le m e e' :
  e' <= e ->
  snd (shl_align m e e') = e' /\
  Z.pos (fst (shl_align m e e')) = Z.pos m * 2 ^ (e - e').
Proof.
  intros H. unfold shl_align. destruct (e' - e) as [|d|d] eqn:E; cbn [fst snd].
  - assert (e = e') by lia. subst. rewrite Z.sub_diag. cbn. lia.
  - lia.
  - rewrite iter_xO. replace (e - e') with (Z.pos d) by lia. auto.
Qed.

Lemma shl_align_ge m e e' :
  e <= e' -> shl_align m e e' = (m, e).
Proof.
  intros H. unfold shl_align. destruct (e' - e) as [|d|d] eqn:E; auto. lia.
Qed.

(** *** Right shifts with their round and sticky bits *)

Lemma iter_pos_iter {A} (f : A -> A) p x : iter_pos f p x = Pos.iter f x p.
Proof.
  revert x. induction p as [p IH | p IH |]; intros x; cbn.
  - rewrite !IH. rewrite <- !Pos.iter_swap. reflexivity.
  - rewrite !IH. reflexivity.
  - reflexivity.
Qed.

Lemma shr_inv_init m0 : 0 <= m0 -> shr_inv m0 1 (Build_shr_record m0 false false).
Proof. intros. exists 0. cbn. split; [lia|]. split; [lia|]. split; [lia|]. split; [discriminate | lia]. Qed.

Lemma shr_inv_step m0 P mrs : 0 < P -> shr_inv m0 P mrs -> shr_inv m0 (2 * P) (shr_1 mrs).
Proof.
  intros HP (rem & Hm & Hq & Hl & Hs). destruct mrs as [m r s]. cbn [shr_m shr_r shr_s] in *.
  assert (Hs' : orb r s = true <-> 2 * rem <> 0).
  { rewrite orb_true_iff, Hs. destruct r; split; intros; try lia; auto.
  }
  destruct m as [|[q|q|]|q]; cbn [shr_1 shr_m shr_r shr_s]; try lia; destruct r.
  all: try change (Z.pos q~1) with (2 * Z.pos q + 1) in Hm.
  all: try change (Z.pos q~0) with (2 * Z.pos q) in Hm.
  all: cbn [orb] in *.
  all: unfold shr_inv; cbn [shr_m shr_r shr_s].
  1, 2, 5, 6: exists rem; (split; [lia | split; [lia | split; [lia | rewrite Hs'; lia]]]).
  all: exists (P + rem); (split; [lia | split; [lia | split; [lia | rewrite Hs'; lia]]]).
Qed.

Lemma shr_inv_iter m0 p :
  0 <= m0 -> shr_inv m0 (2 ^ Z.pos p) (iter_pos shr_1 p (Build_shr_record m0 false false)).
Proof.
  intros H. rewrite iter_pos_iter.
  apply Pos.iter_ind with (P := fun p a => shr_inv m0 (2 ^ Z.pos p) a).
  - change (2 ^ 1) with (2 * 1). apply shr_inv_step; [lia | apply shr_inv_init; assumption].
  - intros q a IH. rewrite Pos2Z.inj_succ, Z.pow_succ_r by lia.
    apply shr_inv_step; [apply pow2_pos; lia | assumption].
Qed.

Lemma round_nearest_even_inv m0 P mrs :
  0 < P -> shr_inv m0 P mrs ->
  let q' := round_nearest_even (shr_m mrs) (loc_of_shr_record mrs) in
  shr_m mrs <= q' <= shr_m mrs + 1 /\ 2 * Z.abs (q' * P - m0) <= P.
Proof.
  intros HP (rem & Hm & Hq & Hl & Hs). destruct mrs as [m r s]. cbn [shr_m shr_r shr_s] in *.
  destruct r, s; cbn [loc_of_shr_record round_nearest_even].
  - split; [lia|]. subst m0. replace ((m + 1) * P - (m * P + rem)) with (P - rem) by ring. lia.
  - assert (2 * rem - P = 0).
    { destruct (Z.eq_dec (2 * rem - P) 0); [assumption|]. destruct Hs as [_ Hs]. specialize (Hs n). discriminate. }
    destruct (Z.even m).
    + split; [lia|]. subst m0. replace (m * P - (m * P + rem)) with (- rem) by ring. lia.
    + split; [lia|]. subst m0. replace ((m + 1) * P - (m * P + rem)) with (P - rem) by ring. lia.
  - split; [lia|]. subst m0. replace (m * P - (m * P + rem)) with (- rem) by ring. lia.
  - split; [lia|]. subst m0. replace (m * P - (m * P + rem)) with (- rem) by ring.
    assert (2 * rem - 0 = 0).
    { destruct (Z.eq_dec (2 * rem - 0) 0); [assumption|]. destruct Hs as [_ Hs]. specialize (Hs n). discriminate. }
    lia.
Qed.

Lemma fexp32_eq x : fexp 24 128 x = Z.max (x - 24) (-149).
Proof. reflexivity. Qed.

Lemma canon_facts m e :
  canon m e -> -149 <= e /\ dig m <= 24 /\ (-149 < e -> dig m = 24).
Proof. unfold canon. rewrite fexp32_eq. lia. Qed.

Lemma canon_bool m e : canonical_mantissa 24 128 m e = true <-> canon m e.
Proof. unfold canonical_mantissa, canon, dig. apply Z.eqb_eq. Qed.

(** An integer that already has its canonical exponent goes through
    [binary_round_aux] unchanged. *)

Lemma binary_round_aux_canon s m e :
  canon m e ->
  binary_round_aux 24 128 s (Z.pos m) e loc_Exact =
  if e <=? 104 then S754_finite s m e else S754_infinity s.
Proof.
  intros H. unfold canon, dig in H.
  unfold binary_round_aux, shr_fexp. cbn [Zdigits2 shr_record_of_loc].
  rewrite H, Z.sub_diag. cbn [shr shr_m round_nearest_even loc_of_shr_record].
  cbn [Zdigits2 shr_record_of_loc].
  rewrite H, Z.sub_diag. cbn [shr shr_m]. reflexivity.
Qed.

Lemma dig_shift m k m' : 0 <= k -> Z.pos m' = Z.pos m * 2 ^ k -> dig m' = dig m + k.
Proof.
  intros Hk E. apply dig_unique. rewrite E.
  pose proof (dig_bounds m) as [B1 B2]. pose proof (dig_pos m).
  replace (dig m + k - 1) with ((dig m - 1) + k) by lia.
  rewrite !pow2_split by lia. pose proof (pow2_pos k Hk). nia.
Qed.

(** [binary_round] when no bit is lost: the mantissa is shifted left to
    its canonical exponent. *)
Lemma binary_round_exact s m e :
  fexp 24 128 (dig m + e) <= e -> round_outcome s m e (binary_round 24 128 s m e).
Proof.
  intros H. unfold binary_round. fold (dig m).
  destruct (shl_align_le m e _ H) as [E1 E2].
  destruct (shl_align m e (fexp 24 128 (dig m + e))) as [mz ez]. cbn [fst snd] in *. subst ez.
  assert (D : dig mz = dig m + (e - fexp 24 128 (dig m + e))) by (apply dig_shift; [lia | exact E2]).
  assert (C : canon mz (fexp 24 128 (dig m + e))).
  { unfold canon. rewrite D. f_equal. lia. }
  rewrite binary_round_aux_canon by exact C.
  exists mz, (fexp 24 128 (dig m + e)). split; [reflexivity|]. split; [exact C|].
  assert (F : -149 <= fexp 24 128 (dig m + e)) by (rewrite fexp32_eq; lia).
  assert (E : Z.pos mz * 2 ^ (fexp 24 128 (dig m + e) + 149) = Z.pos m * 2 ^ (e + 149)).
  { rewrite E2, <- Z.mul_assoc, <- pow2_split by lia. do 2 f_equal. lia. }
  rewrite E, Z.sub_diag. cbn [Z.abs].
  pose proof (pow2_pos (e + 149) ltac:(lia)).
  split; [nia|]. split; [split; [exact H | reflexivity]|].
  intros N. rewrite <- E.
  assert (D24 : dig mz = 24) by (rewrite D; rewrite fexp32_eq in *; lia).
  pose proof (dig_bounds mz) as [Bz _]. rewrite D24 in Bz.
  change (2 ^ (24 - 1)) with 8388608 in Bz.
  pose proof (pow2_pos (fexp 24 128 (dig m + e) + 149) ltac:(lia)). nia.
Qed.

(** [binary_round] when bits are lost: a right shift, a rounding to
    nearest-even, and one more shift when the rounding carries into a 25th
    digit. *)
Lemma binary_round_inexact s m e :
  -149 <= e -> e < fexp 24 128 (dig m + e) -> round_outcome s m e (binary_round 24 128 s m e).
Proof.
  intros He H. unfold binary_round. fold (dig m).
  rewrite shl_align_ge by lia.
  rewrite fexp32_eq in H.
  pose proof (dig_bounds m) as [B1 B2].
  unfold binary_round_aux. unfold shr_fexp at 1. cbn [Zdigits2 shr_record_of_loc]. fold (dig m).
  rewrite fexp32_eq.
  destruct (Z.max (dig m + e - 24) (-149) - e) as [|p|p] eqn:En; try lia.
  cbn [shr].
  assert (Hn : Z.pos p = dig m - 24) by lia.
  pose proof (shr_inv_iter (Z.pos m) p ltac:(lia)) as Inv.
  set (mrs := iter_pos shr_1 p _) in *.
  pose proof (round_nearest_even_inv _ _ _ (pow2_pos (Z.pos p) ltac:(lia)) Inv) as [Hq Herr].
  set (q' := round_nearest_even _ _) in *.
  destruct Inv as (rem & Hm & Hq0 & Hl & _).
  set (P := 2 ^ Z.pos p) in *.
  assert (HP : 0 < P) by (apply pow2_pos; lia).
  assert (B1' : 2 ^ 23 * P <= Z.pos m).
  { unfold P. rewrite <- pow2_split by lia. replace (23 + Z.pos p) with (dig m - 1) by lia. exact B1. }
  assert (B2' : Z.pos m < 2 ^ 24 * P).
  { unfold P. rewrite <- pow2_split by lia. replace (24 + Z.pos p) with (dig m) by lia. exact B2. }
  assert (Hrem : 0 <= rem < P) by (destruct (shr_r mrs); lia).
  assert (HPdef : P = 2 ^ Z.pos p) by reflexivity.
  assert (HP2 : 2 <= P) by (pose proof (pow2_le 1 (Z.pos p) ltac:(lia)) as HH; exact HH).
  clearbody q' mrs P. clear Hl.
  change (2 ^ 24) with 16777216 in *. change (2 ^ 23) with 8388608 in *.
  assert (Q1 : 8388608 <= shr_m mrs) by nia.
  assert (Q2 : shr_m mrs < 16777216) by nia.
  assert (Q' : 8388608 <= q' <= 16777216) by lia.
  assert (HU : 0 < 2 ^ (e + 149)) by (apply pow2_pos; lia).
  assert (Big : 16777216 <= Z.pos m) by lia.
  assert (Hval : forall (m' : positive) e', e' = e + Z.pos p ->
            Z.pos m' = q' ->
            16777216 * Z.abs (Z.pos m' * 2 ^ (e' + 149) - Z.pos m * 2 ^ (e + 149))
              <= Z.pos m * 2 ^ (e + 149) /\
            (Z.pos m < 16777216 ->
             e' <= e /\ Z.pos m' * 2 ^ (e' + 149) = Z.pos m * 2 ^ (e + 149))).
  { intros m' e' -> ->. split; [|lia].
    replace (e + Z.pos p + 149) with (Z.pos p + (e + 149)) by lia.
    rewrite pow2_split by lia. rewrite <- HPdef.
    replace (q' * (P * 2 ^ (e + 149)) - Z.pos m * 2 ^ (e + 149))
      with ((q' * P - Z.pos m) * 2 ^ (e + 149)) by ring.
    rewrite Z.abs_mul, (Z.abs_eq (2 ^ (e + 149))) by lia.
    rewrite Z.mul_assoc. apply Z.mul_le_mono_nonneg_r; lia. }
  assert (Hpow : 2 ^ (e + Z.pos p + 149) = P * 2 ^ (e + 149)).
  { replace (e + Z.pos p + 149) with (Z.pos p + (e + 149)) by lia.
    rewrite pow2_split by lia. rewrite <- HPdef. reflexivity. }
  destruct (Z.eq_dec q' 16777216) as [Ecarry | Ncarry].
  - rewrite Ecarry. unfold shr_fexp. cbn [Zdigits2 shr_record_of_loc].
    change (Z.pos (digits2_pos 16777216)) with 25.
    rewrite fexp32_eq.
    assert (Z.max (25 + (e + Z.pos p) - 24) (-149) - (e + Z.pos p) = 1) as -> by lia.
    cbn [shr iter_pos shr_1 shr_m]. change (128 - 24) with 104.
    exists 8388608%positive, (e + Z.pos p + 1). split; [reflexivity|].
    split; [unfold canon; rewrite fexp32_eq; change (dig 8388608) with 24; lia|].
    destruct (Hval 16777216%positive (e + Z.pos p) eq_refl ltac:(lia)) as [V1 V2].
    assert (Hpow1 : 2 ^ (e + Z.pos p + 1 + 149) = 2 * 2 ^ (e + Z.pos p + 149)).
    { replace (e + Z.pos p + 1 + 149) with (1 + (e + Z.pos p + 149)) by lia.
      rewrite (pow2_split 1 (e + Z.pos p + 149)) by lia. reflexivity. }
    replace (Z.pos 8388608 * 2 ^ (e + Z.pos p + 1 + 149))
      with (Z.pos 16777216 * 2 ^ (e + Z.pos p + 149)) by (rewrite Hpow1; lia).
    split; [assumption|]. split; [lia|].
    intros _. rewrite Hpow1, Hpow. rewrite Ecarry in Herr.
    assert (33554431 * P <= 2 * Z.pos m) by lia. nia.
  - destruct q' as [|qp|qp] eqn:Eq'; try lia.
    assert (Dq : dig qp = 24) by (apply dig_unique; change (2 ^ (24 - 1)) with 8388608; change (2 ^ 24) with 16777216; lia).
    unfold shr_fexp. cbn [Zdigits2 shr_record_of_loc]. fold (dig qp). rewrite Dq.
    rewrite fexp32_eq.
    assert (Z.max (24 + (e + Z.pos p) - 24) (-149) - (e + Z.pos p) = 0) as -> by lia.
    cbn [shr shr_m]. change (128 - 24) with 104.
    exists qp, (e + Z.pos p). split; [reflexivity|].
    split; [unfold canon; rewrite fexp32_eq, Dq; lia|].
    destruct (Hval qp (e + Z.pos p) eq_refl eq_refl) as [V1 V2].
    split; [assumption|]. split; [lia|].
    intros _. rewrite Hpow. nia.
Qed.

Lemma binary_round_spec s m e :
  -149 <= e -> round_outcome s m e (binary_round 24 128 s m e).
Proof.
  intros He. destruct (Z_le_gt_dec (fexp 24 128 (dig m + e)) e).
  - apply binary_round_exact; assumption.
  - apply binary_round_inexact; lia.
Qed.

(** *** Values *)

Lemma finite_finite s m e :
  finite (S754_finite s m e) = true <-> canon m e /\ e <= 104.
Proof.
  cbn [finite]. change (bounded prec emax m e) with (bounded 24 128 m e).
  unfold bounded. rewrite andb_true_iff, canon_bool, Z.leb_le.
  change (128 - 24) with 104. tauto.
Qed.

Lemma abs_cond_Zopp s (v : Z) : Z.abs (cond_Zopp s v) = Z.abs v.
Proof. destruct s; cbn; lia. Qed.

(** [binary_round], in terms of values. *)

Lemma binary_round_value s m e :
  -149 <= e ->
  let z := Z.pos m * 2 ^ (e + 149) in
  let r := binary_round 24 128 s m e in
  (finite r = true /\
   2 ^ 24 * Z.abs (val r - cond_Zopp s z) <= z /\
   (Z.pos m < 2 ^ 24 -> e <= 104 -> val r = cond_Zopp s z))
  \/ (r = S754_infinity s /\ max_scaled <= z /\ (Z.pos m < 2 ^ 24 -> 104 < e)).
Proof.
  intros He z r.
  destruct (binary_round_spec s m e He) as (m' & e' & Hr & C & Herr & Hex & Hlow).
  fold r in Hr. fold z in Herr, Hex.
  destruct (Z.leb_spec e' 104) as [L | G].
  - left. rewrite Hr. split; [apply finite_finite; auto|].
    cbn [val]. split.
    + destruct s; cbn [cond_Zopp]; [|exact Herr].
      replace (- (Z.pos m' * 2 ^ (e' + 149)) - - z) with (- (Z.pos m' * 2 ^ (e' + 149) - z)) by ring.
      rewrite Z.abs_opp. exact Herr.
    + intros Hm _. destruct (Hex Hm) as [_ ->]. reflexivity.
  - right. split; [exact Hr|]. split; [|intros Hm; destruct (Hex Hm); lia].
    specialize (Hlow ltac:(lia)).
    pose proof (pow2_le 254 (e' + 149) ltac:(lia)) as Hp.
    unfold max_scaled. lia.
Qed.

Lemma binary_normalize_value k e sz :
  -149 <= e ->
  let z := k * 2 ^ (e + 149) in
  let r := binary_normalize 24 128 k e sz in
  (finite r = true /\
   2 ^ 24 * Z.abs (val r - z) <= Z.abs z /\
   (Z.abs k < 2 ^ 24 -> e <= 104 -> val r = z))
  \/ (r = S754_infinity (k <? 0) /\ max_scaled <= Z.abs z /\ (Z.abs k < 2 ^ 24 -> 104 < e)).
Proof.
  intros He z r. pose proof (pow2_pos (e + 149) ltac:(lia)) as HU.
  destruct k as [|m|m]; cbn [binary_normalize] in r.
  - left. subst r z. cbn. repeat split; lia.
  - destruct (binary_round_value false m e He) as [(F & E & X) | (I & B & X)]; cbn [cond_Zopp] in *.
    + left. subst r z. split; [exact F|]. split; [|exact X].
      rewrite (Z.abs_eq (Z.pos m * _)) by lia. exact E.
    + right. subst r z. split; [exact I|]. split; [|exact X].
      rewrite (Z.abs_eq (Z.pos m * _)) by lia. exact B.
  - destruct (binary_round_value true m e He) as [(F & E & X) | (I & B & X)]; cbn [cond_Zopp] in *.
    + left. subst r z. split; [exact F|].
      replace (Z.neg m * 2 ^ (e + 149)) with (- (Z.pos m * 2 ^ (e + 149))) by lia.
      rewrite Z.abs_opp, (Z.abs_eq (Z.pos m * _)) by lia. split; [exact E | exact X].
    + right. subst r z. split; [exact I|].
      replace (Z.neg m * 2 ^ (e + 149)) with (- (Z.pos m * 2 ^ (e + 149))) by lia.
      rewrite Z.abs_opp, (Z.abs_eq (Z.pos m * _)) by lia. split; [exact B | exact X].
Qed.

(** Alignment of a finite number to a smaller exponent. *)

Lemma aligned_value s m ex ez :
  -149 <= ez <= ex ->
  cond_Zopp s (Z.pos (fst (shl_align m ex ez))) * 2 ^ (ez + 149)
  = cond_Zopp s (Z.pos m * 2 ^ (ex + 149)).
Proof.
  intros H. destruct (shl_align_le m ex ez ltac:(lia)) as [_ ->].
  assert (Z.pos m * 2 ^ (ex - ez) * 2 ^ (ez + 149) = Z.pos m * 2 ^ (ex + 149)) as E.
  { rewrite <- Z.mul_assoc, <- (pow2_split (ex - ez) (ez + 149)) by lia. do 2 f_equal. lia. }
  destruct s; cbn [cond_Zopp]; lia.
Qed.

(** Comparison of finite numbers is comparison of their values. *)

Lemma cmp_canon m1 e1 m2 e2 :
  canon m1 e1 -> canon m2 e2 ->
  match e1 ?= e2 with
  | Lt => Lt
  | Gt => Gt
  | Eq => Pos.compare_cont Eq m1 m2
  end = (Z.pos m1 * 2 ^ (e1 + 149) ?= Z.pos m2 * 2 ^ (e2 + 149)).
Proof.
  intros C1 C2.
  destruct (canon_facts _ _ C1) as (L1 & D1 & N1).
  destruct (canon_facts _ _ C2) as (L2 & D2 & N2).
  pose proof (dig_bounds m1) as [A1 B1]. pose proof (dig_bounds m2) as [A2 B2].
  assert (T1 : Z.pos m1 < 2 ^ 24) by (pose proof (pow2_le (dig m1) 24 ltac:(pose proof (dig_pos m1); lia)); lia).
  assert (T2 : Z.pos m2 < 2 ^ 24) by (pose proof (pow2_le (dig m2) 24 ltac:(pose proof (dig_pos m2); lia)); lia).
  change (2 ^ 24) with 16777216 in *.
  destruct (Z.compare_spec e1 e2) as [E | L | G]; symmetry.
  - subst e2. pose proof (pow2_pos (e1 + 149) ltac:(lia)).
    rewrite <- Zmult_compare_compat_r by lia. reflexivity.
  - apply Z.compare_lt_iff.
    rewrite (N2 ltac:(lia)) in A2. change (2 ^ (24 - 1)) with 8388608 in A2.
    replace (e2 + 149) with ((e2 - e1) + (e1 + 149)) by lia.
    rewrite (pow2_split (e2 - e1) (e1 + 149)) by lia.
    pose proof (pow2_pos (e1 + 149) ltac:(lia)).
    pose proof (pow2_le 1 (e2 - e1) ltac:(lia)) as Hp. change (2 ^ 1) with 2 in Hp.
    assert (16777216 <= Z.pos m2 * 2 ^ (e2 - e1)) by nia.
    rewrite Z.mul_assoc. apply Z.lt_le_trans with (16777216 * 2 ^ (e1 + 149));
      [apply Z.mul_lt_mono_pos_r; lia | apply Z.mul_le_mono_nonneg_r; lia].
  - apply Z.compare_gt_iff.
    rewrite (N1 ltac:(lia)) in A1. change (2 ^ (24 - 1)) with 8388608 in A1.
    replace (e1 + 149) with ((e1 - e2) + (e2 + 149)) by lia.
    rewrite (pow2_split (e1 - e2) (e2 + 149)) by lia.
    pose proof (pow2_pos (e2 + 149) ltac:(lia)).
    pose proof (pow2_le 1 (e1 - e2) ltac:(lia)) as Hp. change (2 ^ 1) with 2 in Hp.
    assert (16777216 <= Z.pos m1 * 2 ^ (e1 - e2)) by nia.
    rewrite Z.mul_assoc. apply Z.lt_le_trans with (16777216 * 2 ^ (e2 + 149));
      [apply Z.mul_lt_mono_pos_r; lia | apply Z.mul_le_mono_nonneg_r; lia].
Qed.

Lemma compare_value x y :
  finite x = true -> finite y = true -> SFcompare x y = Some (val x ?= val y).
Proof.
  intros Fx Fy.
  destruct x as [sx | sx | | sx mx ex], y as [sy | sy | | sy my ey]; try discriminate.
  - reflexivity.
  - apply finite_finite in Fy as [Cy _]. destruct (canon_facts _ _ Cy) as (Ly & _).
    pose proof (pow2_pos (ey + 149) ltac:(lia)).
    cbn [SFcompare val]. f_equal. symmetry.
    destruct sy; cbn [cond_Zopp]; [apply Z.compare_gt_iff | apply Z.compare_lt_iff]; lia.
  - apply finite_finite in Fx as [Cx _]. destruct (canon_facts _ _ Cx) as (Lx & _).
    pose proof (pow2_pos (ex + 149) ltac:(lia)).
    cbn [SFcompare val]. f_equal. symmetry.
    destruct sx; cbn [cond_Zopp]; [apply Z.compare_lt_iff | apply Z.compare_gt_iff]; lia.
  - apply finite_finite in Fx as [Cx _]. apply finite_finite in Fy as [Cy _].
    destruct (canon_facts _ _ Cx) as (Lx & _). destruct (canon_facts _ _ Cy) as (Ly & _).
    pose proof (pow2_pos (ex + 149) ltac:(lia)). pose proof (pow2_pos (ey + 149) ltac:(lia)).
    cbn [SFcompare val]. f_equal.
    destruct sx, sy; cbn [cond_Zopp].
    + rewrite Z.compare_opp, <- (cmp_canon my ey mx ex) by assumption.
      rewrite (Z.compare_antisym ex ey).
      replace (Pos.compare_cont Eq my mx) with (CompOpp (Pos.compare_cont Eq mx my))
        by (rewrite Pos.compare_cont_antisym; reflexivity).
      destruct (ex ?= ey); reflexivity.
    + symmetry. apply Z.compare_lt_iff. lia.
    + symmetry. apply Z.compare_gt_iff. lia.
    + apply cmp_canon; assumption.
Qed.

Lemma ltb_value x y :
  finite x = true -> finite y = true -> fltb x y = (val x <? val y).
Proof.
  intros Fx Fy. unfold fltb, SFltb, Z.ltb. rewrite compare_value by assumption. reflexivity.
Qed.

Lemma leb_value x y :
  finite x = true -> finite y = true -> fleb x y = (val x <=? val y).
Proof.
  intros Fx Fy. unfold fleb, SFleb, Z.leb. rewrite compare_value by assumption.
  destruct (val x ?= val y); reflexivity.
Qed.

Lemma finite_exponent s m e : finite (S754_finite s m e) = true -> -149 <= e <= 104.
Proof. intros F. apply finite_finite in F as [C L]. destruct (canon_facts _ _ C). lia. Qed.

(** Addition and subtraction: the exact sum, rounded to a relative error
    of at most [2^-24], or an infinity when it is out of range. *)

Lemma ltb_scaled k U : 0 < U -> (k * U <? 0) = (k <? 0).
Proof.
  intros. destruct (Z.ltb_spec k 0), (Z.ltb_spec (k * U) 0); try reflexivity; nia.
Qed.

Lemma add_value x y :
  finite x = true -> finite y = true ->
  rounds_to (val x + val y) (fadd x y).
Proof.
  intros Fx Fy.
  destruct x as [sx | sx | | sx mx ex], y as [sy | sy | | sy my ey]; try discriminate.
  - left. destruct sx, sy; (split; [reflexivity | cbn; lia]).
  - left. change (fadd ?a ?b) with (SFadd 24 128 a b). cbn [SFadd val]. split; [exact Fy|]. rewrite Z.add_0_l, Z.sub_diag. cbn. lia.
  - left. change (fadd ?a ?b) with (SFadd 24 128 a b). cbn [SFadd val]. split; [exact Fx|]. rewrite Z.add_0_r, Z.sub_diag. cbn. lia.
  - pose proof (finite_exponent _ _ _ Fx). pose proof (finite_exponent _ _ _ Fy).
    change (fadd ?a ?b) with (SFadd 24 128 a b). cbn [SFadd val].
    set (ez := Z.min ex ey).
    rewrite <- (aligned_value sx mx ex ez), <- (aligned_value sy my ey ez) by (unfold ez; lia).
    rewrite <- Z.mul_add_distr_r.
    set (k := _ + _).
    destruct (binary_normalize_value k ez false ltac:(unfold ez; lia)) as [(F & E & _) | (I & B & _)].
    + left. split; assumption.
    + right. rewrite ltb_scaled by (apply pow2_pos; unfold ez; lia). split; assumption.
Qed.

Lemma sub_value x y :
  finite x = true -> finite y = true ->
  rounds_to (val x - val y) (fsub x y).
Proof.
  intros Fx Fy.
  destruct x as [sx | sx | | sx mx ex], y as [sy | sy | | sy my ey]; try discriminate.
  - left. destruct sx, sy; (split; [reflexivity | cbn; lia]).
  - left. change (fsub ?a ?b) with (SFsub 24 128 a b). cbn [SFsub val]. split; [exact Fy|].
    set (A := Z.pos my * 2 ^ (ey + 149)).
    assert (E : cond_Zopp (negb sy) A - (0 - cond_Zopp sy A) = 0)
      by (destruct sy; cbn [negb cond_Zopp]; lia).
    rewrite E. lia.
  - left. change (fsub ?a ?b) with (SFsub 24 128 a b). cbn [SFsub val]. split; [exact Fx|]. rewrite Z.sub_0_r, Z.sub_diag. cbn. lia.
  - pose proof (finite_exponent _ _ _ Fx). pose proof (finite_exponent _ _ _ Fy).
    change (fsub ?a ?b) with (SFsub 24 128 a b). cbn [SFsub val].
    set (ez := Z.min ex ey).
    rewrite <- (aligned_value sx mx ex ez), <- (aligned_value sy my ey ez) by (unfold ez; lia).
    rewrite <- Z.mul_sub_distr_r.
    set (k := _ - _).
    destruct (binary_normalize_value k ez false ltac:(unfold ez; lia)) as [(F & E & _) | (I & B & _)].
    + left. split; assumption.
    + right. rewrite ltb_scaled by (apply pow2_pos; unfold ez; lia). split; assumption.
Qed.

Lemma fmodf_value x y :
  finite x = true -> finite y = true -> val y <> 0 ->
  finite (fmodf x y) = true /\ val (fmodf x y) = Z.rem (val x) (val y).
Proof.
  intros Fx Fy Ny.
  destruct x as [sx | sx | | sx mx ex], y as [sy | sy | | sy my ey]; try discriminate;
    try (cbn in Ny; congruence).
  - split; [reflexivity|]. cbn [fmodf val]. symmetry. apply Z.rem_0_l. exact Ny.
  - pose proof (finite_exponent _ _ _ Fx) as Hx. pose proof (finite_exponent _ _ _ Fy) as Hy.
    cbn [fmodf]. change prec with 24. change emax with 128.
    set (ez := Z.min ex ey). unfold mant_at.
    assert (Hz : -149 <= ez <= 104) by (unfold ez; lia).
    pose proof (pow2_pos (ez + 149) ltac:(lia)) as HU.
    cbn [val].
    rewrite <- (aligned_value sx mx ex ez), <- (aligned_value sy my ey ez) by (unfold ez; lia).
    destruct (shl_align_le mx ex ez ltac:(unfold ez; lia)) as [_ EX].
    destruct (shl_align_le my ey ez ltac:(unfold ez; lia)) as [_ EY].
    set (X := Z.pos (fst (shl_align mx ex ez))) in *.
    set (Y := Z.pos (fst (shl_align my ey ez))) in *.
    assert (PX : 0 < X) by (unfold X; lia). assert (PY : 0 < Y) by (unfold Y; lia).
    pose proof (Z.rem_bound_pos X Y ltac:(lia) PY) as [R0 R1].
    pose proof (Z.rem_le X Y ltac:(lia) PY) as R2.
    assert (Small : Z.rem X Y < 2 ^ 24).
    { apply finite_finite in Fx as [Cx _]. apply finite_finite in Fy as [Cy _].
      destruct (canon_facts _ _ Cx) as (_ & Dx & _). destruct (canon_facts _ _ Cy) as (_ & Dy & _).
      pose proof (dig_bounds mx) as [_ Bx]. pose proof (dig_bounds my) as [_ By].
      pose proof (pow2_le (dig mx) 24 ltac:(pose proof (dig_pos mx); lia)).
      pose proof (pow2_le (dig my) 24 ltac:(pose proof (dig_pos my); lia)).
      destruct (Z.le_ge_cases ex ey) as [L | G].
      - assert (ez = ex) as E by (unfold ez; lia). rewrite E, Z.sub_diag in EX.
        change (2 ^ 0) with 1 in EX. lia.
      - assert (ez = ey) as E by (unfold ez; lia). rewrite E, Z.sub_diag in EY.
        change (2 ^ 0) with 1 in EY. lia. }
    assert (Hrem : Z.rem (cond_Zopp sx X * 2 ^ (ez + 149)) (cond_Zopp sy Y * 2 ^ (ez + 149))
                   = cond_Zopp sx (Z.rem X Y) * 2 ^ (ez + 149)).
    { rewrite Z.mul_rem_distr_r by (destruct sy; cbn [cond_Zopp]; lia).
      f_equal. destruct sx, sy; cbn [cond_Zopp];
        rewrite ?Z.rem_opp_l', ?Z.rem_opp_r'; reflexivity. }
    rewrite Hrem.
    destruct (binary_normalize_value (cond_Zopp sx (Z.rem X Y)) ez sx ltac:(lia))
      as [(F & _ & E) | (_ & _ & O)].
    + split; [exact F|]. apply E; [rewrite abs_cond_Zopp; lia | lia].
    + exfalso. rewrite abs_cond_Zopp in O. specialize (O ltac:(lia)). lia.
Qed.

(** *** Consequences for comparisons, remainders and magnitudes *)

Lemma eqb_value x y :
  finite x = true -> finite y = true -> feqb x y = (val x =? val y).
Proof.
  intros Fx Fy. unfold feqb, SFeqb. rewrite compare_value by assumption.
  destruct (Z.compare_spec (val x) (val y)) as [E | L | G]; symmetry.
  - apply Z.eqb_eq. exact E.
  - apply Z.eqb_neq. lia.
  - apply Z.eqb_neq. lia.
Qed.

Lemma rounds_to_finite z r :
  rounds_to z r -> Z.abs z < max_scaled ->
  finite r = true /\ 2 ^ 24 * Z.abs (val r - z) <= Z.abs z.
Proof. intros [H | [_ H]] B; [exact H | lia]. Qed.

Lemma rounds_to_not_nan z r : rounds_to z r -> r <> S754_nan.
Proof.
  intros [[F _] | [-> _]]; [|discriminate]. intros ->. discriminate.
Qed.

Lemma rounds_to_zero z r :
  rounds_to z r -> (feqb r (S754_zero false) = true <-> z = 0).
Proof.
  intros [[F E] | [-> B]].
  - rewrite eqb_value by (exact F || reflexivity). cbn [val].
    rewrite Z.eqb_eq. change (2 ^ 24) with 16777216 in E. lia.
  - unfold max_scaled in B.
    split; [destruct (z <? 0); discriminate | lia].
Qed.

Lemma fmodf_nonneg x y :
  finite x = true -> finite y = true -> 0 <= val x -> 0 < val y ->
  finite (fmodf x y) = true /\ val (fmodf x y) = val x mod val y.
Proof.
  intros Fx Fy Hx Hy. destruct (fmodf_value x y Fx Fy ltac:(lia)) as [F E].
  split; [exact F|]. rewrite E. apply Z.rem_mod_nonneg; lia.
Qed.

(** A finite number of magnitude at least [2^(k+23)] units is a multiple
    of [2^k] units. *)
Lemma grid x k :
  finite x = true -> 0 <= k -> 2 ^ (k + 23) <= Z.abs (val x) ->
  exists j, val x = j * 2 ^ k.
Proof.
  intros F Hk B. destruct x as [s | s | | s m e]; try discriminate.
  - cbn [val] in B. pose proof (pow2_pos (k + 23) ltac:(lia)). cbn in B. lia.
  - pose proof (finite_exponent _ _ _ F) as He.
    apply finite_finite in F as [C _]. destruct (canon_facts _ _ C) as (_ & D & _).
    pose proof (dig_bounds m) as [_ Bm].
    pose proof (pow2_le (dig m) 24 ltac:(pose proof (dig_pos m); lia)) as Hd.
    cbn [val] in *. rewrite abs_cond_Zopp in B.
    pose proof (pow2_pos (e + 149) ltac:(lia)) as HU.
    rewrite Z.abs_eq in B by lia.
    assert (k <= e + 149).
    { destruct (Z_le_gt_dec k (e + 149)) as [|G]; [assumption|exfalso].
      pose proof (pow2_le (e + 149 + 24) (k + 23) ltac:(lia)) as Hp.
      rewrite (pow2_split (e + 149) 24) in Hp by lia. nia. }
    exists (cond_Zopp s (Z.pos m * 2 ^ (e + 149 - k))).
    assert (2 ^ (e + 149) = 2 ^ (e + 149 - k) * 2 ^ k) as ->
      by (rewrite <- pow2_split by lia; f_equal; lia).
    destruct s; cbn [cond_Zopp]; ring.
Qed.

Lemma finite_magnitude x :
  finite x = true -> Z.abs (val x) <= 2 ^ 277 - 2 ^ 253.
Proof.
  intros F. destruct x as [s | s | | s m e]; try discriminate F.
  - cbn [val Z.abs]. lia.
  - pose proof (finite_exponent _ _ _ F) as He.
    apply finite_finite in F as [C _]. destruct (canon_facts _ _ C) as (_ & D & _).
    pose proof (dig_bounds m) as [_ Bm].
    pose proof (pow2_le (dig m) 24 ltac:(pose proof (dig_pos m); lia)) as Hd.
    cbn [val]. rewrite abs_cond_Zopp.
    pose proof (pow2_pos (e + 149) ltac:(lia)) as HU.
    pose proof (pow2_le (e + 149) 253 ltac:(lia)) as HV.
    rewrite Z.abs_eq by lia.
    change (2 ^ 277) with (2 ^ 24 * 2 ^ 253).
    change (2 ^ 24) with 16777216 in *. nia.
Qed.

End F32.

(** * Values of the constants, and finite sums *)

Lemma unit_pos : 0 < unit.
Proof. reflexivity. Qed.

Lemma val_of_int_small k :
  Z.abs k < 2 ^ 24 -> finite (of_int k) = true /\ val (of_int k) = k * unit.
Proof.
  intros H. unfold of_int. change prec with 24. change emax with 128.
  destruct (F32.binary_normalize_value k 0 false ltac:(lia)) as [(F & _ & E) | (_ & _ & O)].
  - split; [exact F|]. rewrite E by lia. reflexivity.
  - specialize (O H). lia.
Qed.

Lemma val_two_and_half : finite (lit 25 10) = true /\ 2 * val (lit 25 10) = 5 * unit.
Proof. split; vm_compute; reflexivity. Qed.

Lemma add_finite x y :
  finite x = true -> finite y = true ->
  Z.abs (val x + val y) < max_scaled ->
  finite (fadd x y) = true /\
  2 ^ 24 * Z.abs (val (fadd x y) - (val x + val y)) <= Z.abs (val x + val y).
Proof.
  intros Fx Fy B. apply F32.rounds_to_finite; [apply F32.add_value; assumption | exact B].
Qed.

Lemma sub_finite x y :
  finite x = true -> finite y = true ->
  Z.abs (val x - val y) < max_scaled ->
  finite (fsub x y) = true /\
  2 ^ 24 * Z.abs (val (fsub x y) - (val x - val y)) <= Z.abs (val x - val y).
Proof.
  intros Fx Fy B. apply F32.rounds_to_finite; [apply F32.sub_value; assumption | exact B].
Qed.

Lemma val_dt : finite dt = true /\ val dt = 8589935 * 2 ^ 120.
Proof. split; vm_compute; reflexivity. Qed.

Lemma val_fifth : finite (lit 2 10) = true /\ val (lit 2 10) = 13421773 * 2 ^ 123.
Proof. split; vm_compute; reflexivity. Qed.

Lemma val_boatSpeed : finite (lit 12 10) = true /\ val (lit 12 10) = 10066330 * 2 ^ 126.
Proof. split; vm_compute; reflexivity. Qed.

(** * Properties of the program *)

(** ** The animation clock *)

Lemma ticks_S_r n s : ticks (S n) s = update (ticks n s).
Proof.
  revert s. induction n as [|n IH]; intros s; [reflexivity|].
  change (ticks (S (S n)) s) with (ticks (S n) (update s)).
  rewrite IH. reflexivity.
Qed.

Lemma update_paused s : paused (update s) = paused s.
Proof. unfold update. destruct (paused s) eqn:E; cbn; congruence. Qed.

Lemma update_trainSpeed s : trainSpeed (update s) = trainSpeed s.
Proof. unfold update. destruct (paused s) eqn:E; cbn; congruence. Qed.

Lemma update_boatSpeed s : boatSpeed (update s) = boatSpeed s.
Proof. unfold update. destruct (paused s) eqn:E; cbn; congruence. Qed.

Lemma update_waterTime s : waterTime (update s) = fadd (waterTime s) dt.
Proof. unfold update. destruct (paused s) eqn:E; cbn; congruence. Qed.

Lemma ticks_paused n s : paused (ticks n s) = paused s.
Proof.
  revert s. induction n as [|n IH]; intros s; [reflexivity|].
  cbn [ticks]. rewrite IH. apply update_paused.
Qed.

Lemma ticks_trainSpeed n s : trainSpeed (ticks n s) = trainSpeed s.
Proof.
  revert s. induction n as [|n IH]; intros s; [reflexivity|].
  cbn [ticks]. rewrite IH. apply update_trainSpeed.
Qed.

Lemma update_trainPos s :
  paused s = false ->
  trainPos (update s) =
  if fltb (of_int 1160) (fadd (trainPos s) (trainSpeed s))
  then of_int (-760) else fadd (trainPos s) (trainSpeed s).
Proof. intros H. unfold update. rewrite H. reflexivity. Qed.

(** C1 (as stated: refuted).  After 100 unpaused ticks from the initial
    state the train is more than 1e-4 away from -240, and the boat more
    than 1e-4 away from 0: the 100 rounded additions drift. *)
Lemma C1_tolerance_exceeded :
  within_tol (trainPos (ticks 100 initial)) (-240) 1 1 10000 = false /\
  within_tol (boatPos (ticks 100 initial)) 0 1 1 10000 = false.
Proof. split; vm_compute; reflexivity. Qed.

(** C1 (amended).  After exactly 100 unpaused ticks from the initial state
    with the default speeds, trainPos is -240.001129150390625 (within
    1.2e-3 of -240), boatPos is -0.00011157989501953125 (within 1.2e-4 of
    0), and trafficTimer and waterTime are both 1.60000038146972656 (within
    1e-4 of 1.6). *)
Theorem C1_hundred_ticks :
  let s := ticks 100 initial in
  paused s = false /\
  trainPos s = S754_finite true 15728714 (-16) /\
  boatPos s = S754_finite true 15335424 (-37) /\
  trafficTimer s = S754_finite false 13421776 (-23) /\
  waterTime s = S754_finite false 13421776 (-23) /\
  within_tol (trainPos s) (-240) 1 12 10000 = true /\
  within_tol (boatPos s) 0 1 12 100000 = true /\
  within_tol (trafficTimer s) 16 10 1 10000 = true /\
  within_tol (waterTime s) 16 10 1 10000 = true.
Proof. vm_compute. repeat split; reflexivity. Qed.

(** C2 (as stated: refuted).  With the default speed and no wrap in
    between, trainPos after 100 ticks is neither the binary32 evaluation of
    [-520 + 100*trainSpeed] nor its exact value. *)
Lemma C2_closed_form_fails :
  no_wrap 100 initial = true /\
  trainPos (ticks 100 initial)
    <> fadd (of_int (-520)) (fmul (of_int 100) (trainSpeed initial)) /\
  val (trainPos (ticks 100 initial))
    <> (-520) * unit + 100 * val (trainSpeed initial).
Proof.
  split; [vm_compute; reflexivity|].
  split; intros H; vm_compute in H; discriminate.
Qed.

(** C2 (amended).  On every unpaused tick trainPos becomes the binary32 sum
    [trainPos + trainSpeed], and when that sum exceeds [V_WIDTH + 360 = 1160]
    it is reset to exactly -760; the pause flag and the speed are not
    touched.  From the initial state the sum stays within 0.005 of
    [-520 + n*trainSpeed] for the first 600 ticks, none of which wraps, and
    tick 601 is the first reset to -760. *)
Theorem C2_train_position (s : State) (n : nat) :
  paused s = false ->
  let s' := ticks n s in
  let sum := fadd (trainPos s') (trainSpeed s') in
  paused s' = false /\ trainSpeed s' = trainSpeed s /\
  fadd V_WIDTH (of_int 360) = of_int 1160 /\
  trainPos (ticks (S n) s) =
    (if fltb (of_int 1160) sum then of_int (-760) else sum) /\
  (fltb (of_int 1160) sum = true -> trainPos (ticks (S n) s) = of_int (-760)) /\
  no_wrap 600 initial = true /\
  200 * drift_max 600 0 initial 0 <= unit /\
  trainPos (ticks 601 initial) = of_int (-760).
Proof.
  intros Hp s' sum.
  assert (Hp' : paused s' = false) by (unfold s'; rewrite ticks_paused; exact Hp).
  split; [exact Hp'|].
  split; [apply ticks_trainSpeed|].
  split; [vm_compute; reflexivity|].
  rewrite ticks_S_r. fold s'. rewrite (update_trainPos s' Hp'). fold sum.
  split; [reflexivity|].
  split; [intros ->; reflexivity|].
  split; [vm_compute; reflexivity|].
  split; [vm_compute; discriminate | vm_compute; reflexivity].
Qed.

Lemma C2_train_position_witness :
  let s := mkState (of_int (-120)) (lit 12 10) (of_int 0) (of_int 1159)
                   (lit 28 10) false (of_int 0) in
  paused s = false /\
  fltb (of_int 1160) (fadd (trainPos s) (trainSpeed s)) = true /\
  trainPos (ticks 1 s) = of_int (-760).
Proof.
  intros s. split; [reflexivity|].
  split; [vm_compute; reflexivity|].
  destruct (C2_train_position s 0 eq_refl) as (_ & _ & _ & _ & H & _).
  apply H. vm_compute. reflexivity.
Defined.

(** C3.  A tick of a paused state leaves trainPos, boatPos and
    trafficTimer unchanged, and whatever the pause flag, waterTime becomes
    the binary32 sum [waterTime + 0.016f], which is strictly above
    waterTime as long as waterTime is in [0, 262144]. *)
Theorem C3_pause_asymmetry (s : State) :
  (paused s = true ->
   trainPos (update s) = trainPos s /\
   boatPos (update s) = boatPos s /\
   trafficTimer (update s) = trafficTimer s /\
   waterTime (update s) = fadd (waterTime s) (lit 16 1000)) /\
  waterTime (update s) = fadd (waterTime s) (lit 16 1000) /\
  (finite (waterTime s) = true ->
   0 <= val (waterTime s) <= 262144 * unit ->
   fltb (waterTime s) (waterTime (update s)) = true).
Proof.
  split; [|split; [apply update_waterTime|]].
  - intros H. unfold update. rewrite H. cbn. repeat split; reflexivity.
  - intros F B. rewrite update_waterTime. destruct val_dt as [Fd Vd].
    destruct (add_finite (waterTime s) dt F Fd
                ltac:(rewrite Vd; unfold max_scaled, unit in *; lia)) as [Fr E].
    rewrite Vd in E. rewrite F32.ltb_value by assumption.
    apply Z.ltb_lt. unfold unit in *. lia.
Qed.

Lemma C3_pause_asymmetry_witness :
  let s := mkState (boatPos initial) (boatSpeed initial) (waterTime initial)
                   (trainPos initial) (trainSpeed initial) true
                   (trafficTimer initial) in
  paused s = true /\
  trainPos (update s) = trainPos s /\
  waterTime (update s) = fadd (waterTime s) (lit 16 1000) /\
  fltb (waterTime s) (waterTime (update s)) = true.
Proof.
  intros s. split; [reflexivity|].
  destruct (C3_pause_asymmetry s) as (H & _ & I).
  destruct (H eq_refl) as (Ht & _ & _ & Hw).
  split; [exact Ht|]. split; [exact Hw|].
  apply I; [reflexivity | vm_compute; split; discriminate].
Defined.

(** ** The keyboard handler *)

Lemma fltb_fleb a b : fltb a b = true -> fleb a b = true.
Proof.
  unfold fltb, fleb, SFltb, SFleb. destruct (SFcompare a b) as [[| |]|]; congruence.
Qed.

Lemma std_max_floor a b : fleb a a = true -> fleb a (std_max a b) = true.
Proof.
  intros H. unfold std_max. destruct (fltb a b) eqn:E; [apply fltb_fleb; exact E | exact H].
Qed.

Lemma keyboard_minus s :
  keyboard "-" s =
  Some (mkState (boatPos s) (boatSpeed s) (waterTime s) (trainPos s)
          (std_max (lit 2 10) (fsub (trainSpeed s) (lit 2 10)))
          (paused s) (trafficTimer s)).
Proof. reflexivity. Qed.

Lemma minus_floor s s' :
  keyboard "-" s = Some s' -> fleb (lit 2 10) (trainSpeed s') = true.
Proof.
  rewrite keyboard_minus. intros [= <-]. cbn [trainSpeed].
  apply std_max_floor. vm_compute. reflexivity.
Qed.

Lemma run_minus_total n s : exists s', run (repeat (Key "-") n) s = Some s'.
Proof.
  revert s. induction n as [|n IH]; intros s; [exists s; reflexivity|].
  cbn [repeat run step]. rewrite keyboard_minus. apply IH.
Qed.

Lemma run_minus_floor n s s' :
  fleb (lit 2 10) (trainSpeed s) = true ->
  run (repeat (Key "-") n) s = Some s' ->
  fleb (lit 2 10) (trainSpeed s') = true.
Proof.
  revert s. induction n as [|n IH]; intros s H.
  - cbn. intros [= <-]. exact H.
  - cbn [repeat run step]. destruct (keyboard "-" s) as [s1|] eqn:E; [|discriminate].
    apply IH. eapply minus_floor. exact E.
Qed.

(** C6.  The '-' handler stores [max(0.2f, trainSpeed - 0.2f)]; after one
    or more '-' presses from any state trainSpeed is at least 0.2f, after any
    number of presses it is at least 0.2f when it was before, and at
    trainSpeed = 0.2f a press leaves it at 0.2f.  The floor 0.2f itself is
    not below the real number 0.2. *)
Theorem C6_speed_floor (s : State) (n : nat) :
  keyboard "-" s =
    Some (mkState (boatPos s) (boatSpeed s) (waterTime s) (trainPos s)
            (std_max (lit 2 10) (fsub (trainSpeed s) (lit 2 10)))
            (paused s) (trafficTimer s)) /\
  (exists s', run (repeat (Key "-") (S n)) s = Some s' /\
              fleb (lit 2 10) (trainSpeed s') = true) /\
  (fleb (lit 2 10) (trainSpeed s) = true ->
   exists s', run (repeat (Key "-") n) s = Some s' /\
              fleb (lit 2 10) (trainSpeed s') = true) /\
  (trainSpeed s = lit 2 10 ->
   exists s', keyboard "-" s = Some s' /\ trainSpeed s' = lit 2 10) /\
  unit <= 5 * val (lit 2 10).
Proof.
  split; [apply keyboard_minus|].
  split.
  { destruct (run_minus_total (S n) s) as [s' E]. exists s'. split; [exact E|].
    cbn [repeat run step] in E. destruct (keyboard "-" s) as [s1|] eqn:E1; [|discriminate].
    eapply run_minus_floor; [eapply minus_floor; exact E1 | exact E]. }
  split.
  { intros H. destruct (run_minus_total n s) as [s' E]. exists s'. split; [exact E|].
    eapply run_minus_floor; eassumption. }
  split.
  { intros H. eexists. split; [apply keyboard_minus|]. cbn [trainSpeed]. rewrite H.
    vm_compute. reflexivity. }
  vm_compute. discriminate.
Qed.

Lemma C6_speed_floor_witness :
  fleb (lit 2 10) (trainSpeed initial) = true /\
  (exists s', run (repeat (Key "-") 20) initial = Some s' /\
              fleb (lit 2 10) (trainSpeed s') = true) /\
  (exists s',
     keyboard "-" (mkState (of_int (-120)) (lit 12 10) (of_int 0) (of_int (-520))
                           (lit 2 10) false (of_int 0)) = Some s' /\
     trainSpeed s' = lit 2 10).
Proof.
  split; [vm_compute; reflexivity|]. split.
  - destruct (C6_speed_floor initial 20) as (_ & _ & H & _).
    apply H. vm_compute. reflexivity.
  - destruct (C6_speed_floor
                (mkState (of_int (-120)) (lit 12 10) (of_int 0) (of_int (-520))
                         (lit 2 10) false (of_int 0)) 0) as (_ & _ & _ & H & _).
    apply H. reflexivity.
Defined.

(** C7.  On an unpaused tick whose sum [boatPos + boatSpeed] exceeds
    [V_WIDTH + 120 = 920], boatPos is reset to exactly -150, and boatSpeed
    (its sign included) is what it was. *)
Theorem C7_boat_wraparound (s : State) :
  paused s = false ->
  fltb (fadd V_WIDTH (of_int 120)) (fadd (boatPos s) (boatSpeed s)) = true ->
  boatPos (update s) = of_int (-150) /\
  boatSpeed (update s) = boatSpeed s /\
  fadd V_WIDTH (of_int 120) = of_int 920.
Proof.
  intros Hp Hw. split; [|split; [apply update_boatSpeed | vm_compute; reflexivity]].
  unfold update. rewrite Hp. cbn [negb boatPos]. rewrite Hw. reflexivity.
Qed.

Lemma C7_boat_wraparound_witness :
  let s := mkState (of_int 919) (lit 12 10) (of_int 0) (of_int (-520))
                   (lit 28 10) false (of_int 0) in
  fadd (boatPos s) (boatSpeed s) = S754_finite false 15076557 (-14) /\
  boatPos (update s) = of_int (-150) /\ boatSpeed (update s) = lit 12 10.
Proof.
  intros s. split; [vm_compute; reflexivity|].
  destruct (C7_boat_wraparound s) as (H1 & H2 & _);
    [reflexivity | vm_compute; reflexivity|].
  split; [exact H1 | exact H2].
Defined.

(** ** The DDA helpers *)

(** C9.  [drawLineDDA] and [drawLineDDA_Lamp] compute the same step count
    and emit the same sequence of points, for every input. *)
Theorem C9_dda_helpers_identical (fuel : nat) (x1 y1 x2 y2 : float) :
  drawLineDDA_steps x1 y1 x2 y2 = drawLineDDA_Lamp_steps x1 y1 x2 y2 /\
  drawLineDDA fuel x1 y1 x2 y2 = drawLineDDA_Lamp fuel x1 y1 x2 y2.
Proof. split; reflexivity. Qed.

Lemma steps_zero dx dy :
  dx <> S754_nan -> dy <> S754_nan ->
  feqb (if fltb (fabs dy) (fabs dx) then fabs dx else fabs dy) (S754_zero false)
  = feqb dx (S754_zero false) && feqb dy (S754_zero false).
Proof.
  intros Nx Ny.
  destruct dx as [sx | sx | | sx mx ex]; try congruence;
    destruct dy as [sy | sy | | sy my ey]; try congruence;
    try (destruct sx); try (destruct sy); try reflexivity;
    cbn [fabs SFabs]; match goal with |- context [fltb ?a ?b] => destruct (fltb a b) end;
    reflexivity.
Qed.

(** C10.  The step count of the DDA helper is zero exactly when the two end
    points are equal (for finite coordinates); the nine segments the program
    draws (three per lamp post: pole, arm, head) have step counts 170, 22
    and 12, all positive, so no call divides by zero, and each call emits
    steps+1 points (621 in all). *)
Theorem C10_dda_steps_nonzero (x1 y1 x2 y2 : float) :
  finite x1 = true -> finite y1 = true ->
  finite x2 = true -> finite y2 = true ->
  (feqb (drawLineDDA_Lamp_steps x1 y1 x2 y2) (of_int 0) = true <->
   feqb x1 x2 = true /\ feqb y1 y2 = true) /\
  map segment_steps drawThreeDDALamps_calls =
    [of_int 170; of_int 22; of_int 12; of_int 170; of_int 22; of_int 12;
     of_int 170; of_int 22; of_int 12] /\
  Forall (fun sg => fltb (of_int 0) (segment_steps sg) = true)
         drawThreeDDALamps_calls /\
  map (fun sg => option_map (@length Point) (drawSegment 171 sg))
      drawThreeDDALamps_calls =
    [Some 171; Some 23; Some 13; Some 171; Some 23; Some 13;
     Some 171; Some 23; Some 13]%nat /\
  option_map (@length Point) (drawThreeDDALamps 171) = Some 621%nat.
Proof.
  intros F1 G1 F2 G2. split.
  - unfold drawLineDDA_Lamp_steps. change (of_int 0) with (S754_zero false).
    pose proof (F32.sub_value x2 x1 F2 F1) as Rx.
    pose proof (F32.sub_value y2 y1 G2 G1) as Ry.
    rewrite steps_zero by (eapply F32.rounds_to_not_nan; eassumption).
    rewrite andb_true_iff, (F32.rounds_to_zero _ _ Rx), (F32.rounds_to_zero _ _ Ry).
    rewrite !F32.eqb_value by assumption. rewrite !Z.eqb_eq. lia.
  - split; [vm_compute; reflexivity|].
    split; [repeat constructor|].
    split; vm_compute; reflexivity.
Qed.

Lemma C10_dda_steps_nonzero_witness :
  feqb (drawLineDDA_Lamp_steps (of_int 180) (of_int 120) (of_int 180) (of_int 290))
       (of_int 0) = false.
Proof.
  destruct (C10_dda_steps_nonzero (of_int 180) (of_int 120) (of_int 180) (of_int 290)
              eq_refl eq_refl eq_refl eq_refl) as [[H _] _].
  destruct (feqb (drawLineDDA_Lamp_steps _ _ _ _) (of_int 0)); [|reflexivity].
  destruct (H eq_refl) as [_ E]. vm_compute in E. discriminate.
Defined.


(** ** The traffic signals *)

Lemma lamps_by_value t :
  finite t = true ->
  lit_lamps t =
  if 2 * val t <? 5 * unit then [RED]
  else if val t <? 5 * unit then [GREEN] else [YELLOW].
Proof.
  intros F. destruct val_two_and_half as [F25 V25].
  destruct (val_of_int_small 5 ltac:(cbn; lia)) as [F5 V5].
  unfold lit_lamps, redOn, greenOn, yellowOn.
  rewrite !F32.ltb_value, !F32.leb_value by assumption. rewrite V5.
  pose proof unit_pos.
  destruct (Z.ltb_spec (val t) (val (lit 25 10))), (Z.leb_spec (val (lit 25 10)) (val t)),
    (Z.ltb_spec (val t) (5 * unit)), (Z.leb_spec (5 * unit) (val t)),
    (Z.ltb_spec (2 * val t) (5 * unit)); try lia; reflexivity.
Qed.

Lemma signal_t_value timer p :
  finite (fadd timer p) = true -> 0 <= val (fadd timer p) ->
  finite (signal_t timer p) = true /\
  val (signal_t timer p) = val (fadd timer p) mod (6 * unit).
Proof.
  intros F N. destruct (val_of_int_small 6 ltac:(cbn; lia)) as [F6 V6].
  pose proof unit_pos. unfold signal_t.
  destruct (F32.fmodf_nonneg (fadd timer p) (of_int 6) F F6 N ltac:(lia)) as [Ft Vt].
  rewrite V6 in Vt. split; assumption.
Qed.

(** C4.  With [t = fmodf(trafficTimer + p, 6)] for a finite, non-negative
    sum, [t] lies in [0,6) and the signal shows RED exactly for t in
    [0,2.5), GREEN exactly for t in [2.5,5), YELLOW exactly for t in [5,6);
    for p = 0 the timers 0.0, 2.6, 5.1 and 6.0 give RED, GREEN, YELLOW and
    RED; and two sums that differ by exactly 6 show the same lamp. *)
Theorem C4_phase_function (timer p : float) :
  finite (fadd timer p) = true ->
  fleb (of_int 0) (fadd timer p) = true ->
  let t := signal_t timer p in
  finite t = true /\
  val t = val (fadd timer p) mod (6 * unit) /\
  fleb (of_int 0) t = true /\ fltb t (of_int 6) = true /\
  (drawTrafficSignal timer p = [RED] <->
   fleb (of_int 0) t && fltb t (lit 25 10) = true) /\
  (drawTrafficSignal timer p = [GREEN] <->
   fleb (lit 25 10) t && fltb t (of_int 5) = true) /\
  (drawTrafficSignal timer p = [YELLOW] <->
   fleb (of_int 5) t && fltb t (of_int 6) = true) /\
  map (fun x => drawTrafficSignal x (of_int 0))
      [lit 0 10; lit 26 10; lit 51 10; lit 60 10]
    = [[RED]; [GREEN]; [YELLOW]; [RED]] /\
  (forall timer' p',
     finite (fadd timer' p') = true ->
     val (fadd timer' p') = val (fadd timer p) + 6 * unit ->
     drawTrafficSignal timer' p' = drawTrafficSignal timer p).
Proof.
  intros F N. cbv zeta. unfold drawTrafficSignal at 1 2 3.
  set (t := signal_t timer p).
  destruct (val_of_int_small 0 ltac:(cbn; lia)) as [F0 V0].
  destruct (val_of_int_small 5 ltac:(cbn; lia)) as [F5 V5].
  destruct (val_of_int_small 6 ltac:(cbn; lia)) as [F6 V6].
  destruct val_two_and_half as [F25 V25].
  pose proof unit_pos as HU.
  rewrite F32.leb_value in N by assumption. rewrite V0 in N. apply Z.leb_le in N.
  destruct (signal_t_value timer p F ltac:(lia)) as [Ft Vt]. fold t in Ft, Vt.
  pose proof (Z.mod_pos_bound (val (fadd timer p)) (6 * unit) ltac:(lia)) as Bt.
  rewrite <- Vt in Bt.
  rewrite (lamps_by_value t Ft).
  rewrite !F32.ltb_value, !F32.leb_value by assumption. rewrite V0, V5, V6.
  split; [exact Ft|]. split; [exact Vt|].
  split; [apply Z.leb_le; lia|]. split; [apply Z.ltb_lt; lia|].
  split; [|split; [|split; [|split]]].
  - rewrite andb_true_iff, Z.leb_le, Z.ltb_lt.
    destruct (Z.ltb_spec (2 * val t) (5 * unit)); [split; [lia | reflexivity]|].
    destruct (Z.ltb_spec (val t) (5 * unit)); (split; [discriminate | lia]).
  - rewrite andb_true_iff, Z.leb_le, Z.ltb_lt.
    destruct (Z.ltb_spec (2 * val t) (5 * unit)); [split; [discriminate | lia]|].
    destruct (Z.ltb_spec (val t) (5 * unit)); [split; [lia | reflexivity]|].
    split; [discriminate | lia].
  - rewrite andb_true_iff, Z.leb_le, Z.ltb_lt.
    destruct (Z.ltb_spec (2 * val t) (5 * unit)); [split; [discriminate | lia]|].
    destruct (Z.ltb_spec (val t) (5 * unit)); [split; [discriminate | lia]|].
    split; [lia | reflexivity].
  - vm_compute. reflexivity.
  - intros timer' p' F' E.
    destruct (signal_t_value timer' p' F' ltac:(lia)) as [Ft' Vt'].
    unfold drawTrafficSignal. fold t. rewrite (lamps_by_value _ Ft'), (lamps_by_value _ Ft).
    assert (val (signal_t timer' p') = val t) as ->; [|reflexivity].
    rewrite Vt', Vt, E.
    replace (val (fadd timer p) + 6 * unit) with (val (fadd timer p) + 1 * (6 * unit)) by ring.
    apply Z.mod_add. lia.
Qed.

Lemma C4_phase_function_witness :
  finite (fadd (of_int 1) (of_int 3)) = true /\
  fleb (of_int 0) (fadd (of_int 1) (of_int 3)) = true /\
  drawTrafficSignal (of_int 1) (of_int 3) = [GREEN] /\
  drawTrafficSignal (of_int 7) (of_int 3) = drawTrafficSignal (of_int 1) (of_int 3).
Proof.
  split; [reflexivity|]. split; [reflexivity|].
  destruct (C4_phase_function (of_int 1) (of_int 3) eq_refl eq_refl)
    as (_ & _ & _ & _ & _ & [_ H] & _ & _ & P).
  split.
  - apply H. vm_compute. reflexivity.
  - apply P; [reflexivity | vm_compute; reflexivity].
Defined.

(** ** Bounds kept along every run *)

Lemma train_bounds tp ts :
  finite tp = true -> (-760) * unit <= val tp <= 1160 * unit ->
  finite ts = true -> val (lit 2 10) <= val ts <= 4194304 * unit ->
  let r := if fltb (fadd V_WIDTH (of_int 360)) (fadd tp ts)
           then of_int (-760) else fadd tp ts in
  finite r = true /\ (-760) * unit <= val r <= 1160 * unit.
Proof.
  intros Fp Bp Fs Bs. destruct val_fifth as [_ V02]. rewrite V02 in Bs.
  change (fadd V_WIDTH (of_int 360)) with (of_int 1160).
  destruct (val_of_int_small 1160 ltac:(cbn; lia)) as [F1 V1].
  destruct (val_of_int_small (-760) ltac:(cbn; lia)) as [F2 V2].
  destruct (add_finite tp ts Fp Fs ltac:(unfold max_scaled, unit in *; lia)) as [F E].
  cbv zeta. rewrite F32.ltb_value by assumption. rewrite V1.
  destruct (Z.ltb_spec (1160 * unit) (val (fadd tp ts))).
  - split; [exact F2|]. rewrite V2. unfold unit. lia.
  - split; [exact F|]. unfold unit in *. lia.
Qed.

Lemma boat_bounds bp :
  finite bp = true -> (-150) * unit <= val bp <= 920 * unit ->
  let r := if fltb (fadd V_WIDTH (of_int 120)) (fadd bp (lit 12 10))
           then of_int (-150) else fadd bp (lit 12 10) in
  finite r = true /\ (-150) * unit <= val r <= 920 * unit.
Proof.
  intros Fp Bp. destruct val_boatSpeed as [Fs Vs].
  change (fadd V_WIDTH (of_int 120)) with (of_int 920).
  destruct (val_of_int_small 920 ltac:(cbn; lia)) as [F1 V1].
  destruct (val_of_int_small (-150) ltac:(cbn; lia)) as [F2 V2].
  destruct (add_finite bp (lit 12 10) Fp Fs ltac:(rewrite Vs; unfold max_scaled, unit in *; lia)) as [F E].
  rewrite Vs in E.
  cbv zeta. rewrite F32.ltb_value by assumption. rewrite V1.
  destruct (Z.ltb_spec (920 * unit) (val (fadd bp (lit 12 10)))).
  - split; [exact F2|]. rewrite V2. unfold unit. lia.
  - split; [exact F|]. unfold unit in *. lia.
Qed.

Lemma timer_bounds tt :
  finite tt = true -> 0 <= val tt < 100000 * unit ->
  let r := if fleb (of_int 100000) (fadd tt dt)
           then fmodf (fadd tt dt) (of_int 100000) else fadd tt dt in
  finite r = true /\ 0 <= val r < 100000 * unit.
Proof.
  intros Ft Bt. destruct val_dt as [Fd Vd].
  destruct (val_of_int_small 100000 ltac:(cbn; lia)) as [F1 V1].
  destruct (add_finite tt dt Ft Fd ltac:(rewrite Vd; unfold max_scaled, unit in *; lia)) as [F E].
  rewrite Vd in E.
  assert (P : 0 <= val (fadd tt dt)) by (unfold max_scaled, unit in *; lia).
  cbv zeta. rewrite F32.leb_value by assumption. rewrite V1.
  destruct (Z.leb_spec (100000 * unit) (val (fadd tt dt))).
  - destruct (F32.fmodf_nonneg (fadd tt dt) (of_int 100000) F F1 P
                ltac:(rewrite V1; unfold unit; lia)) as [Fm Vm].
    split; [exact Fm|]. rewrite Vm, V1. apply Z.mod_pos_bound. unfold unit. lia.
  - split; [exact F|]. lia.
Qed.

Lemma water_bounds wt :
  finite wt = true -> 0 <= val wt <= 524288 * unit ->
  finite (fadd wt dt) = true /\ 0 <= val (fadd wt dt) <= 524288 * unit.
Proof.
  intros Fw Bw. destruct val_dt as [Fd Vd].
  destruct (add_finite wt dt Fw Fd ltac:(rewrite Vd; unfold max_scaled, unit in *; lia)) as [F E].
  rewrite Vd in E. split; [exact F|]. split; [unfold max_scaled, unit in *; lia|].
  destruct (Z_le_gt_dec (val (fadd wt dt)) (524288 * unit)) as [|G]; [assumption|exfalso].
  destruct (F32.grid (fadd wt dt) 145 F ltac:(lia) ltac:(unfold unit in *; cbn [Z.add]; lia))
    as [j Hj].
  unfold unit in *. lia.
Qed.

Lemma plus_bounds ts :
  finite ts = true -> val (lit 2 10) <= val ts <= 4194304 * unit ->
  finite (fadd ts (lit 2 10)) = true /\
  val (lit 2 10) <= val (fadd ts (lit 2 10)) <= 4194304 * unit.
Proof.
  intros Fs Bs. destruct val_fifth as [F02 V02]. rewrite V02 in *.
  destruct (add_finite ts (lit 2 10) Fs F02 ltac:(rewrite V02; unfold max_scaled, unit in *; lia)) as [F E].
  rewrite V02 in E. split; [exact F|]. split; [unfold max_scaled, unit in *; lia|].
  destruct (Z_le_gt_dec (val (fadd ts (lit 2 10))) (4194304 * unit)) as [|G];
    [assumption|exfalso].
  destruct (F32.grid (fadd ts (lit 2 10)) 148 F ltac:(lia)
              ltac:(unfold unit in *; cbn [Z.add]; lia)) as [j Hj].
  unfold unit in *. lia.
Qed.

Lemma minus_bounds ts :
  finite ts = true -> val (lit 2 10) <= val ts <= 4194304 * unit ->
  finite (std_max (lit 2 10) (fsub ts (lit 2 10))) = true /\
  val (lit 2 10) <= val (std_max (lit 2 10) (fsub ts (lit 2 10))) <= 4194304 * unit.
Proof.
  intros Fs Bs. destruct val_fifth as [F02 V02].
  destruct (sub_finite ts (lit 2 10) Fs F02 ltac:(rewrite V02 in *; unfold max_scaled, unit in *; lia))
    as [F E].
  unfold std_max. rewrite F32.ltb_value by assumption.
  destruct (Z.ltb_spec (val (lit 2 10)) (val (fsub ts (lit 2 10)))) as [L | G].
  - split; [exact F|]. split; [lia|]. rewrite V02 in *.
    destruct (Z_le_gt_dec (val (fsub ts (lit 2 10))) (4194304 * unit)) as [|G];
      [assumption|exfalso].
    destruct (F32.grid (fsub ts (lit 2 10)) 148 F ltac:(lia)
                ltac:(unfold unit in *; cbn [Z.add]; lia)) as [j Hj].
    unfold unit in *. lia.
  - split; [exact F02|]. rewrite V02 in *. unfold unit. lia.
Qed.

Lemma initial_bounded : bounded_state initial.
Proof.
  unfold bounded_state. cbn [initial trainPos boatPos boatSpeed trafficTimer trainSpeed waterTime].
  repeat split; vm_compute; congruence.
Qed.

Lemma update_bounded s : bounded_state s -> bounded_state (update s).
Proof.
  intros ((Ftp & Btp) & (Fbp & Bbp) & Ebs & (Ftt & Btt) & (Fts & Bts) & (Fwt & Bwt)).
  pose proof (water_bounds _ Fwt Bwt) as W.
  unfold bounded_state, update. destruct (paused s) eqn:P;
    cbn [negb trainPos boatPos boatSpeed trafficTimer trainSpeed waterTime].
  - repeat split; tauto.
  - pose proof (train_bounds _ _ Ftp Btp Fts Bts) as T.
    pose proof (boat_bounds _ Fbp Bbp) as B.
    pose proof (timer_bounds _ Ftt Btt) as M.
    cbv zeta in T, B, M. rewrite <- Ebs in B. repeat split; tauto.
Qed.

Lemma keyboard_bounded k s s' :
  bounded_state s -> keyboard k s = Some s' -> bounded_state s'.
Proof.
  intros ((Ftp & Btp) & (Fbp & Bbp) & Ebs & (Ftt & Btt) & (Fts & Bts) & (Fwt & Bwt)).
  unfold keyboard.
  destruct (Ascii.eqb k key_ESC); [discriminate|].
  destruct (Ascii.eqb k " ");
    [intros [= <-]; unfold bounded_state; cbn; tauto|].
  destruct (Ascii.eqb k "+").
  { intros [= <-]. pose proof (plus_bounds _ Fts Bts).
    unfold bounded_state; cbn [trainPos boatPos boatSpeed trafficTimer trainSpeed waterTime].
    tauto. }
  destruct (Ascii.eqb k "-").
  { intros [= <-]. pose proof (minus_bounds _ Fts Bts).
    unfold bounded_state; cbn [trainPos boatPos boatSpeed trafficTimer trainSpeed waterTime].
    tauto. }
  intros [= <-]. unfold bounded_state. tauto.
Qed.

Lemma run_bounded es s s' :
  bounded_state s -> run es s = Some s' -> bounded_state s'.
Proof.
  revert s. induction es as [|e es IH]; intros s B.
  - cbn. intros [= <-]. exact B.
  - cbn [run]. destruct (step e s) as [s1|] eqn:E; [|discriminate].
    apply IH. destruct e as [|k]; cbn [step] in E.
    + injection E as <-. apply update_bounded. exact B.
    + eapply keyboard_bounded; eassumption.
Qed.

Lemma add_zero_r x :
  finite x = true ->
  finite (fadd x (of_int 0)) = true /\ val (fadd x (of_int 0)) = val x.
Proof.
  intros F. change (of_int 0) with (S754_zero false).
  destruct x as [[|] | | | s m e]; try discriminate; split; try reflexivity; exact F.
Qed.

(** For every timer value in [0, 100000) the two signals, of offsets 0 and
    3, show one lamp each, of different colours. *)
Lemma signals_differ_value timer :
  finite timer = true -> 0 <= val timer < 100000 * unit ->
  exists c1 c2, drawTrafficSignals timer = ([c1], [c2]) /\ c1 <> c2.
Proof.
  intros F B.
  destruct (add_zero_r timer F) as [F1 V1].
  destruct (val_of_int_small 3 ltac:(cbn; lia)) as [F3 V3].
  destruct (add_finite timer (of_int 3) F F3 ltac:(rewrite V3; unfold max_scaled, unit in *; lia))
    as [F2 E2].
  rewrite V3 in E2.
  destruct (signal_t_value timer (of_int 0) F1 ltac:(lia)) as [Ft1 Vt1].
  destruct (signal_t_value timer (of_int 3) F2 ltac:(unfold max_scaled, unit in *; lia)) as [Ft2 Vt2].
  rewrite V1 in Vt1.
  unfold drawTrafficSignals, drawTrafficSignal.
  rewrite (lamps_by_value _ Ft1), (lamps_by_value _ Ft2), Vt1, Vt2.
  set (a := val timer) in *. set (b := val (fadd timer (of_int 3))) in *.
  pose proof (Z.div_mod a (6 * unit) ltac:(unfold unit; lia)) as Da.
  pose proof (Z.div_mod b (6 * unit) ltac:(unfold unit; lia)) as Db.
  pose proof (Z.mod_pos_bound a (6 * unit) ltac:(unfold unit; lia)) as Ma.
  pose proof (Z.mod_pos_bound b (6 * unit) ltac:(unfold unit; lia)) as Mb.
  set (ta := a mod (6 * unit)) in *. set (tb := b mod (6 * unit)) in *.
  set (qa := a / (6 * unit)) in *. set (qb := b / (6 * unit)) in *.
  clearbody a b ta tb qa qb.
  destruct (Z.ltb_spec (2 * ta) (5 * unit)), (Z.ltb_spec (ta) (5 * unit)),
    (Z.ltb_spec (2 * tb) (5 * unit)), (Z.ltb_spec (tb) (5 * unit));
    try (eexists _, _; split; [reflexivity | discriminate]);
    exfalso; unfold max_scaled, unit in *; lia.
Qed.

(** C5.  For every trafficTimer in [0, 100000), and so for the trafficTimer
    of every state a run of the program reaches, the two signals (offsets 0
    and 3) each show one lamp, and the two lamps differ. *)
Theorem C5_signals_never_agree (timer : float) (es : list Event) (s : State) :
  (finite timer = true -> 0 <= val timer < 100000 * unit ->
   exists c1 c2, drawTrafficSignals timer = ([c1], [c2]) /\ c1 <> c2) /\
  (run es initial = Some s ->
   finite (trafficTimer s) = true /\
   0 <= val (trafficTimer s) < 100000 * unit /\
   exists c1 c2, drawTrafficSignals (trafficTimer s) = ([c1], [c2]) /\ c1 <> c2).
Proof.
  split; [apply signals_differ_value|].
  intros R. destruct (run_bounded es initial s initial_bounded R)
    as (_ & _ & _ & (F & B) & _).
  split; [exact F|]. split; [exact B|]. apply signals_differ_value; assumption.
Qed.

Lemma C5_signals_never_agree_witness :
  (exists c1 c2, drawTrafficSignals (lit 26 10) = ([c1], [c2]) /\ c1 <> c2) /\
  (exists c1 c2,
     drawTrafficSignals (trafficTimer (ticks 3 initial)) = ([c1], [c2]) /\ c1 <> c2).
Proof.
  destruct (C5_signals_never_agree (lit 26 10) [Tick; Tick; Tick] (ticks 3 initial))
    as [G H].
  split.
  - apply G; [reflexivity | vm_compute; split; [discriminate | reflexivity]].
  - destruct (H eq_refl) as (_ & _ & E). exact E.
Defined.

(** Outside the range the timer is kept in, the two signals can agree. *)
Remark signals_agree_far_out :
  drawTrafficSignals (of_int 33554432) = ([RED], [RED]).
Proof. vm_compute. reflexivity. Qed.

(** ** Which fields are clamped *)

Lemma state_finite_fields s :
  state_finite s = true ->
  finite (boatPos s) = true /\ finite (boatSpeed s) = true /\
  finite (waterTime s) = true /\ finite (trainPos s) = true /\
  finite (trainSpeed s) = true /\ finite (trafficTimer s) = true.
Proof. unfold state_finite. rewrite !andb_true_iff. tauto. Qed.

Lemma guard_clamps z r hi lo :
  rounds_to z r -> finite hi = true -> finite lo = true -> val lo <= val hi ->
  fleb (if fltb hi r then lo else r) hi = true.
Proof.
  intros [[F _] | [-> _]] Fh Fl L.
  - rewrite F32.ltb_value by assumption.
    destruct (Z.ltb_spec (val hi) (val r)); rewrite F32.leb_value by assumption;
      apply Z.leb_le; lia.
  - destruct (z <? 0).
    + destruct hi as [sh | sh | | sh mh eh]; try discriminate Fh; reflexivity.
    + replace (fltb hi (S754_infinity false)) with true
        by (destruct hi as [sh | sh | | sh mh eh]; try discriminate Fh; reflexivity).
      rewrite F32.leb_value by assumption. apply Z.leb_le. exact L.
Qed.

Lemma trainPos_clamped : clamped_by_tick trainPos.
Proof.
  exists (of_int 1160). split; [reflexivity|]. split; [reflexivity|].
  intros s Fs P. destruct (state_finite_fields s Fs) as (_ & _ & _ & Ftp & Fts & _).
  rewrite (update_trainPos s P).
  apply (guard_clamps (val (trainPos s) + val (trainSpeed s)));
    [apply F32.add_value; assumption | reflexivity | reflexivity | vm_compute; discriminate].
Qed.

Lemma boatPos_clamped : clamped_by_tick boatPos.
Proof.
  exists (of_int 920). split; [reflexivity|]. split; [reflexivity|].
  intros s Fs P. destruct (state_finite_fields s Fs) as (Fbp & Fbs & _).
  unfold update. rewrite P. cbn [negb boatPos].
  change (fadd V_WIDTH (of_int 120)) with (of_int 920).
  apply (guard_clamps (val (boatPos s) + val (boatSpeed s)));
    [apply F32.add_value; assumption | reflexivity | reflexivity | vm_compute; discriminate].
Qed.

Lemma trafficTimer_clamped : clamped_by_tick trafficTimer.
Proof.
  exists (of_int 100000). split; [reflexivity|]. split; [reflexivity|].
  intros s Fs P. destruct (state_finite_fields s Fs) as (_ & _ & _ & _ & _ & Ftt).
  unfold update. rewrite P. cbn [negb trafficTimer].
  destruct val_dt as [Fd Vd].
  destruct (val_of_int_small 100000 ltac:(cbn; lia)) as [F1 V1].
  pose proof (F32.finite_magnitude _ Ftt) as M.
  destruct (add_finite (trafficTimer s) dt Ftt Fd
              ltac:(rewrite Vd; unfold max_scaled; lia)) as [F _].
  rewrite (F32.leb_value (of_int 100000)) by assumption. rewrite V1.
  destruct (Z.leb_spec (100000 * unit) (val (fadd (trafficTimer s) dt))) as [G | L].
  - destruct (F32.fmodf_nonneg (fadd (trafficTimer s) dt) (of_int 100000) F F1
                ltac:(unfold unit in *; lia) ltac:(rewrite V1; unfold unit; lia))
      as [Fm Vm].
    rewrite F32.leb_value by assumption. apply Z.leb_le. rewrite Vm, V1.
    pose proof (Z.mod_pos_bound (val (fadd (trafficTimer s) dt)) (100000 * unit)
                  ltac:(unfold unit; lia)). lia.
  - rewrite F32.leb_value by assumption. apply Z.leb_le. lia.
Qed.

(** C8 (as stated: refuted).  waterTime and trainSpeed have no clamp: from
    the state whose waterTime is FLT_MAX a tick leaves it at FLT_MAX, and
    from the state whose trainSpeed is FLT_MAX a '+' press leaves it at
    FLT_MAX, so neither operation keeps its field below any bound under
    FLT_MAX. *)
Lemma C8_fields_without_clamp :
  waterTime (update (mkState (of_int (-120)) (lit 12 10) FLT_MAX (of_int (-520))
                             (lit 28 10) false (of_int 0))) = FLT_MAX /\
  ~ clamped_by_tick waterTime /\
  ~ clamped_by_key "+" trainSpeed.
Proof.
  split; [vm_compute; reflexivity|]. split.
  - intros (B & FB & LB & H).
    specialize (H (mkState (of_int (-120)) (lit 12 10) FLT_MAX (of_int (-520))
                           (lit 28 10) false (of_int 0)) eq_refl eq_refl).
    replace (waterTime (update _)) with FLT_MAX in H by (vm_compute; reflexivity).
    rewrite F32.leb_value in H by (exact FB || reflexivity).
    rewrite F32.ltb_value in LB by (exact FB || reflexivity).
    apply Z.leb_le in H. apply Z.ltb_lt in LB. lia.
  - intros (B & FB & LB & H).
    specialize (H (mkState (of_int (-120)) (lit 12 10) (of_int 0) (of_int (-520))
                           FLT_MAX false (of_int 0)) _ eq_refl eq_refl).
    cbn [trainSpeed] in H.
    replace (fadd FLT_MAX (lit 2 10)) with FLT_MAX in H by (vm_compute; reflexivity).
    rewrite F32.leb_value in H by (exact FB || reflexivity).
    rewrite F32.ltb_value in LB by (exact FB || reflexivity).
    apply Z.leb_le in H. apply Z.ltb_lt in LB. lia.
Qed.

(** C8 (amended).  In every state that a sequence of ticks and key events
    reaches from the initial state: trainPos is in [-760, 1160], boatPos in
    [-150, 920], trafficTimer in [0, 100000), each by a clamp of [update];
    trainSpeed is at least 0.2f by the floor of the '-' handler; trainSpeed
    is at most 4194304 and waterTime at most 524288, not by a clamp but
    because adding 0.2f, or 0.016f, no longer changes a binary32 number of
    that size. *)
Theorem C8_bounded_state (es : list Event) (s : State) :
  run es initial = Some s ->
  bounded_state s /\
  clamped_by_tick trainPos /\ clamped_by_tick boatPos /\
  clamped_by_tick trafficTimer /\
  (forall s0 s1, keyboard "-" s0 = Some s1 ->
                 fleb (lit 2 10) (trainSpeed s1) = true) /\
  fadd (of_int 4194304) (lit 2 10) = of_int 4194304 /\
  fadd (of_int 524288) dt = of_int 524288.
Proof.
  intros R. split; [exact (run_bounded es initial s initial_bounded R)|].
  split; [exact trainPos_clamped|]. split; [exact boatPos_clamped|].
  split; [exact trafficTimer_clamped|]. split; [exact minus_floor|].
  split; vm_compute; reflexivity.
Qed.

Lemma C8_bounded_state_witness :
  run [Tick; Key "+"; Tick; Key "-"] initial <> None /\
  (forall s, run [Tick; Key "+"; Tick; Key "-"] initial = Some s -> bounded_state s) /\
  fleb (lit 2 10)
       (std_max (lit 2 10) (fsub (trainSpeed initial) (lit 2 10))) = true.
Proof.
  split; [vm_compute; discriminate|]. split.
  - intros s R. destruct (C8_bounded_state _ s R) as [H _]. exact H.
  - destruct (C8_bounded_state [] initial eq_refl) as (_ & _ & _ & _ & H & _).
    exact (H initial _ (keyboard_minus initial)).
Defined.

(** * Further properties of the event handlers *)

Lemma keyboard_None k s : keyboard k s = None <-> Ascii.eqb k key_ESC = true.
Proof.
  unfold keyboard. destruct (Ascii.eqb k key_ESC); [tauto|].
  destruct (Ascii.eqb k " "), (Ascii.eqb k "+"), (Ascii.eqb k "-");
    split; discriminate.
Qed.

(** X1.  A run of the main loop ends in [exit(0)] exactly when one of its
    events is the ESC key; ticks and all other keys keep the process
    running. *)
Theorem run_exits_iff_ESC (es : list Event) (s : State) :
  run es s = None <-> existsb is_ESC es = true.
Proof.
  revert s. induction es as [|e es IH]; intros s.
  - cbn. split; discriminate.
  - cbn [run existsb]. rewrite orb_true_iff. destruct e as [|k]; cbn [step is_ESC].
    + rewrite IH. split; [tauto | intros [H | H]; [discriminate | exact H]].
    + destruct (keyboard k s) as [s1|] eqn:E.
      * rewrite IH. split; [tauto|]. intros [H | H]; [|exact H].
        apply (keyboard_None k s) in H. congruence.
      * split; [|reflexivity]. intros _. left. apply (keyboard_None k s). exact E.
Qed.

Lemma keyboard_frame k s s' :
  keyboard k s = Some s' ->
  boatPos s' = boatPos s /\ boatSpeed s' = boatSpeed s /\
  waterTime s' = waterTime s /\ trainPos s' = trainPos s /\
  trafficTimer s' = trafficTimer s /\
  paused s' = xorb (paused s) (Ascii.eqb k " ") /\
  (Ascii.eqb k "+" || Ascii.eqb k "-" = false -> trainSpeed s' = trainSpeed s).
Proof.
  unfold keyboard. destruct (Ascii.eqb k key_ESC); [discriminate|].
  destruct (Ascii.eqb k " ") eqn:E1.
  { intros [= <-]. cbn. destruct (paused s); repeat split; reflexivity. }
  destruct (Ascii.eqb k "+") eqn:E2.
  { intros [= <-]. cbn. rewrite xorb_false_r. repeat split; discriminate. }
  destruct (Ascii.eqb k "-") eqn:E3.
  { intros [= <-]. cbn. rewrite xorb_false_r. repeat split; discriminate. }
  intros [= <-]. rewrite xorb_false_r. repeat split; reflexivity.
Qed.

(** X2.  Key events alone move nothing: after any run made of key events
    only, the two positions, the two timers and boatSpeed are what they
    were. *)
Theorem keys_move_nothing (es : list Event) (s s' : State) :
  forallb is_key es = true -> run es s = Some s' ->
  trainPos s' = trainPos s /\ boatPos s' = boatPos s /\
  boatSpeed s' = boatSpeed s /\
  trafficTimer s' = trafficTimer s /\ waterTime s' = waterTime s.
Proof.
  revert s. induction es as [|e es IH]; intros s K R.
  - cbn in R. injection R as <-. repeat split; reflexivity.
  - cbn [forallb] in K. apply andb_true_iff in K as [Ke K].
    destruct e as [|k]; [discriminate|]. cbn [run step] in R.
    destruct (keyboard k s) as [s1|] eqn:E; [|discriminate].
    destruct (keyboard_frame k s s1 E) as (A & B & C & D & F & _).
    destruct (IH s1 K R) as (A' & B' & C' & D' & F').
    repeat split; congruence.
Qed.

Lemma keys_move_nothing_witness :
  exists s', run [Key "+"; Key " "; Key "-"; Key "x"] initial = Some s' /\
             trainPos s' = trainPos initial /\ waterTime s' = waterTime initial.
Proof.
  eexists. split; [reflexivity|].
  destruct (keys_move_nothing [Key "+"; Key " "; Key "-"; Key "x"] initial _
              eq_refl eq_refl) as (A & _ & _ & _ & B).
  split; [exact A | exact B].
Defined.

(** X3.  The pause flag of a run is the flag it started with, flipped
    once per Space key; ticks and the other keys never touch it.  So two
    Space presses restore it. *)
Theorem pause_flag_parity (es : list Event) (s s' : State) :
  run es s = Some s' ->
  paused s' = xorb (paused s) (Nat.odd (length (filter is_space es))).
Proof.
  revert s. induction es as [|e es IH]; intros s R.
  - cbn in R. injection R as <-. cbn. rewrite xorb_false_r. reflexivity.
  - cbn [run] in R. destruct (step e s) as [s1|] eqn:E; [|discriminate].
    rewrite (IH s1 R). destruct e as [|k]; cbn [step filter is_space] in *.
    + injection E as <-. rewrite update_paused. reflexivity.
    + destruct (keyboard_frame k s s1 E) as (_ & _ & _ & _ & _ & P & _).
      rewrite P. destruct (Ascii.eqb k " "); cbn [length].
      * rewrite Nat.odd_succ, <- Nat.negb_odd.
        destruct (paused s), (Nat.odd (length (filter is_space es))); reflexivity.
      * rewrite xorb_false_r. reflexivity.
Qed.

Lemma pause_flag_parity_witness :
  exists s', run [Key " "; Tick; Key "+"; Key " "; Tick] initial = Some s' /\
             paused s' = false.
Proof.
  eexists. split; [reflexivity|].
  exact (pause_flag_parity [Key " "; Tick; Key "+"; Key " "; Tick] initial _ eq_refl).
Defined.

(** X4.  While the animation is paused any number of ticks leaves the
    train, the boat, the two speeds and the traffic timer exactly where they
    are; only waterTime moves, by one binary32 addition of 0.016f per
    tick. *)
Theorem paused_ticks_freeze (n : nat) (s : State) :
  paused s = true ->
  paused (ticks n s) = true /\
  trainPos (ticks n s) = trainPos s /\ boatPos (ticks n s) = boatPos s /\
  trainSpeed (ticks n s) = trainSpeed s /\ boatSpeed (ticks n s) = boatSpeed s /\
  trafficTimer (ticks n s) = trafficTimer s /\
  waterTime (ticks n s) = Nat.iter n (fun w => fadd w dt) (waterTime s).
Proof.
  revert s. induction n as [|n IH]; intros s P.
  - cbn. repeat split; assumption || reflexivity.
  - rewrite ticks_S_r. destruct (IH s P) as (A & B & C & D & E & F & G).
    unfold update. rewrite A. cbn [negb boatPos boatSpeed waterTime trainPos
      trainSpeed paused trafficTimer Nat.iter nat_rect].
    rewrite G. repeat split; assumption || reflexivity.
Qed.

Lemma paused_ticks_freeze_witness :
  let s := mkState (of_int (-120)) (lit 12 10) (of_int 0) (of_int (-520))
                   (lit 28 10) true (of_int 0) in
  trainPos (ticks 50 s) = of_int (-520) /\ trafficTimer (ticks 50 s) = of_int 0.
Proof.
  intros s. destruct (paused_ticks_freeze 50 s eq_refl) as (_ & A & _ & _ & _ & B & _).
  split; [exact A | exact B].
Defined.

(** * Progress of the animation *)

Lemma ticks_bounded n s : bounded_state s -> bounded_state (ticks n s).
Proof.
  revert s. induction n as [|n IH]; intros s B; [exact B|].
  cbn [ticks]. apply IH. apply update_bounded. exact B.
Qed.

Lemma update_boatPos s :
  paused s = false ->
  boatPos (update s) =
  if fltb (of_int 920) (fadd (boatPos s) (boatSpeed s))
  then of_int (-150) else fadd (boatPos s) (boatSpeed s).
Proof. intros H. unfold update. rewrite H. reflexivity. Qed.

Lemma update_trafficTimer s :
  paused s = false ->
  trafficTimer (update s) =
  if fleb (of_int 100000) (fadd (trafficTimer s) dt)
  then fmodf (fadd (trafficTimer s) dt) (of_int 100000)
  else fadd (trafficTimer s) dt.
Proof. intros H. unfold update. rewrite H. reflexivity. Qed.

(** The rounded sum of the train: above the old position by at least 0.19,
    and within 1/14000 of the exact sum when it does not pass 1160. *)
Lemma train_sum s :
  bounded_state s ->
  let r := fadd (trainPos s) (trainSpeed s) in
  finite r = true /\
  100 * val (trainPos s) + 19 * unit <= 100 * val r /\
  (val r <= 1160 * unit ->
   14000 * Z.abs (val r - (val (trainPos s) + val (trainSpeed s))) <= unit).
Proof.
  intros ((Ftp & Btp) & _ & _ & _ & (Fts & Bts) & _) r.
  destruct val_fifth as [_ V02]. rewrite V02 in Bts.
  destruct (add_finite _ _ Ftp Fts ltac:(unfold max_scaled, unit in *; lia)) as [F E].
  fold r in F, E. split; [exact F|]. unfold unit in *. split; [lia|]. intros L. lia.
Qed.

Lemma boat_sum s :
  bounded_state s ->
  let r := fadd (boatPos s) (boatSpeed s) in
  finite r = true /\
  100 * val (boatPos s) + 119 * unit <= 100 * val r /\
  14000 * Z.abs (val r - (val (boatPos s) + val (boatSpeed s))) <= unit.
Proof.
  intros (_ & (Fbp & Bbp) & Ebs & _) r. destruct val_boatSpeed as [Fs Vs].
  unfold r. rewrite Ebs.
  destruct (add_finite _ _ Fbp Fs ltac:(rewrite Vs; unfold max_scaled, unit in *; lia))
    as [F E].
  rewrite Vs in *. split; [exact F|]. unfold unit in *. split; lia.
Qed.

Lemma timer_sum s :
  bounded_state s ->
  let r := fadd (trafficTimer s) dt in
  finite r = true /\
  val (trafficTimer s) < val r /\ 100 * val r <= 100 * val (trafficTimer s) + 3 * unit.
Proof.
  intros (_ & _ & _ & (Ftt & Btt) & _) r. destruct val_dt as [Fd Vd].
  destruct (add_finite _ _ Ftt Fd ltac:(rewrite Vd; unfold max_scaled, unit in *; lia))
    as [F E].
  fold r in F, E. rewrite Vd in E. split; [exact F|]. unfold unit in *. split; lia.
Qed.

(** X5.  On an unpaused tick of a state within the bounds of a run, the
    train either passes 1160 and restarts at -760, or moves to the rounded
    sum, which is at least 0.19 to the right and within 1/14000 of
    [trainPos + trainSpeed]; the boat likewise restarts at -150 or moves at
    least 1.19 to the right, within 1/14000 of [boatPos + boatSpeed]. *)
Theorem tick_moves_train_and_boat (s : State) :
  bounded_state s -> paused s = false ->
  (trainPos (update s) = of_int (-760) /\
   1160 * unit < val (fadd (trainPos s) (trainSpeed s))
   \/
   trainPos (update s) = fadd (trainPos s) (trainSpeed s) /\
   100 * val (trainPos s) + 19 * unit <= 100 * val (trainPos (update s)) /\
   14000 * Z.abs (val (trainPos (update s))
                  - (val (trainPos s) + val (trainSpeed s))) <= unit) /\
  (boatPos (update s) = of_int (-150) /\
   920 * unit < val (fadd (boatPos s) (boatSpeed s))
   \/
   boatPos (update s) = fadd (boatPos s) (boatSpeed s) /\
   100 * val (boatPos s) + 119 * unit <= 100 * val (boatPos (update s)) /\
   14000 * Z.abs (val (boatPos (update s))
                  - (val (boatPos s) + val (boatSpeed s))) <= unit).
Proof.
  intros B P.
  destruct (train_sum s B) as (Ft & At & Et). destruct (boat_sum s B) as (Fb & Ab & Eb).
  destruct (val_of_int_small 1160 ltac:(cbn; lia)) as [F1 V1].
  destruct (val_of_int_small 920 ltac:(cbn; lia)) as [F2 V2].
  rewrite (update_trainPos s P), (update_boatPos s P).
  rewrite !F32.ltb_value by assumption. rewrite V1, V2. split.
  - destruct (Z.ltb_spec (1160 * unit) (val (fadd (trainPos s) (trainSpeed s)))) as [L | G].
    + left. split; [reflexivity | exact L].
    + right. split; [reflexivity|]. split; [exact At | exact (Et G)].
  - destruct (Z.ltb_spec (920 * unit) (val (fadd (boatPos s) (boatSpeed s)))) as [L | G].
    + left. split; [reflexivity | exact L].
    + right. split; [reflexivity|]. split; [exact Ab | exact Eb].
Qed.

Lemma tick_moves_train_and_boat_witness :
  trainPos (update initial) = fadd (trainPos initial) (trainSpeed initial) /\
  100 * val (trainPos initial) + 19 * unit <= 100 * val (trainPos (update initial)).
Proof.
  destruct (tick_moves_train_and_boat initial initial_bounded eq_refl) as [[[_ H] | H] _].
  - vm_compute in H. discriminate.
  - destruct H as (A & B & _). split; [exact A | exact B].
Defined.

(** X6.  When the traffic timer reaches 100000 the reduction takes off
    exactly 100000: the new timer is the rounded sum minus 100000, between 0
    and 0.03; on every other unpaused tick the timer strictly grows, by at
    most 0.03. *)
Theorem timer_reduction (s : State) :
  bounded_state s -> paused s = false ->
  let r := fadd (trafficTimer s) dt in
  (fleb (of_int 100000) r = true ->
   val (trafficTimer (update s)) = val r - 100000 * unit /\
   0 <= 100 * val (trafficTimer (update s)) <= 3 * unit) /\
  (fleb (of_int 100000) r = false ->
   trafficTimer (update s) = r /\
   val (trafficTimer s) < val r /\
   100 * val r <= 100 * val (trafficTimer s) + 3 * unit).
Proof.
  intros B P r. destruct (timer_sum s B) as (F & L & U). fold r in F, L, U.
  destruct (val_of_int_small 100000 ltac:(cbn; lia)) as [F1 V1].
  destruct B as (_ & _ & _ & (Ftt & Btt) & _).
  rewrite (update_trafficTimer s P). fold r.
  rewrite F32.leb_value by assumption. rewrite V1. split.
  - intros G. rewrite G. apply Z.leb_le in G.
    destruct (F32.fmodf_nonneg r (of_int 100000) F F1 ltac:(lia)
                ltac:(rewrite V1; unfold unit; lia)) as [_ Vm].
    rewrite Vm, V1.
    assert (E : val r mod (100000 * unit) = val r - 100000 * unit).
    { symmetry. apply (Z.mod_unique _ _ 1); unfold unit in *; lia. }
    rewrite E. unfold unit in *. lia.
  - intros G. rewrite G. split; [reflexivity|]. split; assumption.
Qed.

Lemma timer_reduction_witness :
  let s := mkState (of_int (-120)) (lit 12 10) (of_int 0) (of_int (-520))
                   (lit 28 10) false (lit 99999995 1000) in
  bounded_state s /\
  fleb (of_int 100000) (fadd (trafficTimer s) dt) = true /\
  trafficTimer (update s) = lit 78125 10000000.
Proof.
  intros s.
  assert (B : bounded_state s).
  { unfold bounded_state. cbn [s trainPos boatPos boatSpeed trafficTimer trainSpeed waterTime].
    repeat split; vm_compute; congruence. }
  split; [exact B|]. split; [vm_compute; reflexivity|].
  destruct (timer_reduction s B eq_refl) as [H _].
  destruct (H ltac:(vm_compute; reflexivity)) as [_ _].
  vm_compute. reflexivity.
Defined.

(** X7.  The speed keys take effect over the whole working range: for a
    trainSpeed between 0.2f and 3000000 a '+' press strictly raises it, and
    for a trainSpeed above 0.2f (up to 3000000) a '-' press strictly lowers
    it, never below 0.2f. *)
Theorem speed_keys_take_effect (s : State) :
  finite (trainSpeed s) = true ->
  val (lit 2 10) <= val (trainSpeed s) <= 3000000 * unit ->
  (exists s', keyboard "+" s = Some s' /\
              fltb (trainSpeed s) (trainSpeed s') = true) /\
  (val (lit 2 10) < val (trainSpeed s) ->
   exists s', keyboard "-" s = Some s' /\
              fltb (trainSpeed s') (trainSpeed s) = true /\
              fleb (lit 2 10) (trainSpeed s') = true).
Proof.
  intros F B. destruct val_fifth as [F02 V02]. split.
  - eexists. split; [reflexivity|]. cbn [trainSpeed].
    destruct (add_finite _ _ F F02
                ltac:(rewrite V02 in *; unfold max_scaled, unit in *; lia)) as [Fr E].
    rewrite F32.ltb_value by assumption. apply Z.ltb_lt.
    rewrite V02 in *. unfold unit in *. lia.
  - intros L. eexists. split; [apply keyboard_minus|]. cbn [trainSpeed].
    split; [|apply std_max_floor; vm_compute; reflexivity].
    destruct (sub_finite _ _ F F02
                ltac:(rewrite V02 in *; unfold max_scaled, unit in *; lia)) as [Fr E].
    unfold std_max. rewrite (F32.ltb_value (lit 2 10)) by assumption.
    destruct (Z.ltb_spec (val (lit 2 10)) (val (fsub (trainSpeed s) (lit 2 10))));
      rewrite F32.ltb_value by assumption; apply Z.ltb_lt;
      [rewrite V02 in *; unfold unit in *; lia | exact L].
Qed.

Lemma speed_keys_take_effect_witness :
  (exists s', keyboard "+" initial = Some s' /\
              fltb (trainSpeed initial) (trainSpeed s') = true) /\
  (exists s', keyboard "-" initial = Some s' /\
              fltb (trainSpeed s') (trainSpeed initial) = true /\
              fleb (lit 2 10) (trainSpeed s') = true).
Proof.
  destruct (speed_keys_take_effect initial eq_refl
              ltac:(vm_compute; split; discriminate)) as [A B].
  split; [exact A|]. apply B. vm_compute. reflexivity.
Defined.

(** * The traverses loop *)

Lemma ticks_unpaused n s : paused s = false -> paused (ticks n s) = false.
Proof. intros P. rewrite ticks_paused. exact P. Qed.

Lemma boat_advances n s :
  bounded_state s -> paused s = false ->
  (exists k, (k < n)%nat /\
     fltb (of_int 920) (fadd (boatPos (ticks k s)) (boatSpeed (ticks k s))) = true)
  \/ 100 * val (boatPos s) + 119 * Z.of_nat n * unit <= 100 * val (boatPos (ticks n s)).
Proof.
  intros B P. induction n as [|n IH].
  - right. cbn [ticks Z.of_nat]. lia.
  - destruct IH as [(k & Hk & G) | A]; [left; exists k; split; [lia | exact G]|].
    pose proof (ticks_bounded n s B) as Bn. pose proof (ticks_unpaused n s P) as Pn.
    destruct (fltb (of_int 920) (fadd (boatPos (ticks n s)) (boatSpeed (ticks n s))))
      eqn:G; [left; exists n; split; [lia | exact G]|].
    right. rewrite ticks_S_r, (update_boatPos _ Pn), G.
    destruct (boat_sum _ Bn) as (_ & S1 & _). lia.
Qed.

Lemma train_advances n s :
  bounded_state s -> paused s = false ->
  (exists k, (k < n)%nat /\
     fltb (of_int 1160) (fadd (trainPos (ticks k s)) (trainSpeed (ticks k s))) = true)
  \/ 100 * val (trainPos s) + 19 * Z.of_nat n * unit <= 100 * val (trainPos (ticks n s)).
Proof.
  intros B P. induction n as [|n IH].
  - right. cbn [ticks Z.of_nat]. lia.
  - destruct IH as [(k & Hk & G) | A]; [left; exists k; split; [lia | exact G]|].
    pose proof (ticks_bounded n s B) as Bn. pose proof (ticks_unpaused n s P) as Pn.
    destruct (fltb (of_int 1160) (fadd (trainPos (ticks n s)) (trainSpeed (ticks n s))))
      eqn:G; [left; exists n; split; [lia | exact G]|].
    right. rewrite ticks_S_r, (update_trainPos _ Pn), G.
    destruct (train_sum _ Bn) as (_ & S1 & _). lia.
Qed.

(** X8.  The boat always comes round: from any state within the bounds of a
    run, unpaused, one of the next 900 ticks passes 920 and puts the boat
    back at -150. *)
Theorem boat_wraps_within_900_ticks (s : State) :
  bounded_state s -> paused s = false ->
  exists k, (k < 900)%nat /\
    fltb (of_int 920) (fadd (boatPos (ticks k s)) (boatSpeed (ticks k s))) = true /\
    boatPos (ticks (S k) s) = of_int (-150).
Proof.
  intros B P. destruct (boat_advances 900 s B P) as [(k & Hk & G) | A].
  - exists k. split; [exact Hk|]. split; [exact G|].
    rewrite ticks_S_r, (update_boatPos _ (ticks_unpaused k s P)), G. reflexivity.
  - exfalso. destruct (ticks_bounded 900 s B) as (_ & (_ & U) & _).
    destruct B as (_ & (_ & L) & _). unfold unit in *. lia.
Qed.

Lemma boat_wraps_within_900_ticks_witness :
  exists k, (k < 900)%nat /\ boatPos (ticks (S k) initial) = of_int (-150).
Proof.
  destruct (boat_wraps_within_900_ticks initial initial_bounded eq_refl)
    as (k & Hk & _ & E).
  exists k. split; [exact Hk | exact E].
Defined.

(** X9.  So does the train, whatever its speed (at least 0.2f): from any
    state within the bounds of a run, unpaused, one of the next 10200 ticks
    passes 1160 and puts the train back at -760. *)
Theorem train_wraps_within_10200_ticks (s : State) :
  bounded_state s -> paused s = false ->
  exists k : nat, Z.of_nat k < 10200 /\
    fltb (of_int 1160) (fadd (trainPos (ticks k s)) (trainSpeed (ticks k s))) = true /\
    trainPos (ticks (S k) s) = of_int (-760).
Proof.
  intros B P. destruct (train_advances (Z.to_nat 10200) s B P) as [(k & Hk & G) | A].
  - exists k. split; [lia|]. split; [exact G|].
    rewrite ticks_S_r, (update_trainPos _ (ticks_unpaused k s P)), G. reflexivity.
  - exfalso. destruct (ticks_bounded (Z.to_nat 10200) s B) as ((_ & U) & _).
    destruct B as ((_ & L) & _). unfold unit in *. lia.
Qed.

Lemma train_wraps_within_10200_ticks_witness :
  exists k : nat, Z.of_nat k < 10200 /\ trainPos (ticks (S k) initial) = of_int (-760).
Proof.
  destruct (train_wraps_within_10200_ticks initial initial_bounded eq_refl)
    as (k & Hk & _ & E).
  exists k. split; [exact Hk | exact E].
Defined.

(** * Further properties of the DDA helpers and of the signals *)

Lemma finite_val_zero r :
  finite r = true -> val r = 0 -> exists s, r = S754_zero s.
Proof.
  intros F V. destruct r as [s | s | | s m e]; try discriminate F.
  - exists s. reflexivity.
  - exfalso. pose proof (F32.finite_exponent _ _ _ F) as He.
    pose proof (F32.pow2_pos (e + 149) ltac:(lia)).
    cbn [val] in V. destruct s; cbn [cond_Zopp] in V; nia.
Qed.

Lemma fsub_equal x1 x2 :
  finite x1 = true -> finite x2 = true -> feqb x1 x2 = true ->
  exists s, fsub x2 x1 = S754_zero s.
Proof.
  intros F1 F2 E. rewrite F32.eqb_value in E by assumption. apply Z.eqb_eq in E.
  destruct (sub_finite x2 x1 F2 F1 ltac:(rewrite E, Z.sub_diag; vm_compute; reflexivity))
    as [F B].
  rewrite E, Z.sub_diag in B. apply finite_val_zero; [exact F|].
  change (2 ^ 24) with 16777216 in B. lia.
Qed.

(** X10.  A line whose two end points are equal does not divide its way
    into trouble: the step count is zero, both increments are NaN (0/0), and
    the helper emits exactly one point, the start point. *)
Theorem dda_degenerate_line (fuel : nat) (x1 y1 x2 y2 : float) :
  finite x1 = true -> finite y1 = true ->
  finite x2 = true -> finite y2 = true ->
  feqb x1 x2 = true -> feqb y1 y2 = true ->
  drawLineDDA_steps x1 y1 x2 y2 = S754_zero false /\
  fdiv (fsub x2 x1) (drawLineDDA_steps x1 y1 x2 y2) = S754_nan /\
  fdiv (fsub y2 y1) (drawLineDDA_steps x1 y1 x2 y2) = S754_nan /\
  drawLineDDA (S fuel) x1 y1 x2 y2 = Some [(x1, y1)] /\
  drawLineDDA_Lamp (S fuel) x1 y1 x2 y2 = Some [(x1, y1)].
Proof.
  intros F1 G1 F2 G2 Ex Ey.
  destruct (fsub_equal x1 x2 F1 F2 Ex) as [sx Hx].
  destruct (fsub_equal y1 y2 G1 G2 Ey) as [sy Hy].
  unfold drawLineDDA_steps, drawLineDDA, drawLineDDA_Lamp. rewrite Hx, Hy.
  repeat split; cbn [fabs SFabs]; try reflexivity; destruct fuel; reflexivity.
Qed.

Lemma dda_degenerate_line_witness :
  drawLineDDA 5 (lit 15 10) (of_int 7) (lit 15 10) (of_int 7)
  = Some [(lit 15 10, of_int 7)].
Proof.
  destruct (dda_degenerate_line 4 (lit 15 10) (of_int 7) (lit 15 10) (of_int 7)
              eq_refl eq_refl eq_refl eq_refl eq_refl eq_refl) as (_ & _ & _ & H & _).
  exact H.
Defined.

Lemma val_fabs r : val (fabs r) = Z.abs (val r).
Proof.
  destruct r as [s | s | | s m e]; try reflexivity.
  cbn [fabs SFabs val]. rewrite F32.abs_cond_Zopp. cbn [cond_Zopp].
  symmetry. apply Z.abs_eq. destruct (Z.le_gt_cases 0 (e + 149)) as [H | H].
  - pose proof (F32.pow2_pos _ H). lia.
  - rewrite Z.pow_neg_r by lia. lia.
Qed.

Lemma steps_nonneg x1 y1 x2 y2 : 0 <= val (drawLineDDA_steps x1 y1 x2 y2).
Proof.
  unfold drawLineDDA_steps. destruct (fltb _ _); rewrite val_fabs; lia.
Qed.

(** The loop, started at [i], runs through [i .. N] for [N] the integer
    part of [steps], and emits a point each time round. *)
Lemma dda_loop_count steps xInc yInc :
  finite steps = true -> 0 <= val steps < 16777215 * unit ->
  forall fuel i x y,
    0 <= i <= val steps / unit + 1 ->
    val steps / unit + 1 - i <= Z.of_nat fuel ->
    exists ps, dda_loop fuel i x y xInc yInc steps = Some ps /\
               Z.of_nat (length ps) = val steps / unit + 1 - i /\
               (i <= val steps / unit -> hd_error ps = Some (x, y)).
Proof.
  intros F B.
  pose proof (Z.div_mod (val steps) unit ltac:(unfold unit; lia)) as DM.
  pose proof (Z.mod_pos_bound (val steps) unit unit_pos) as MB.
  set (N := val steps / unit) in *.
  assert (HN : 0 <= N < 16777215) by (unfold unit in *; lia).
  assert (Cond : forall i, 0 <= i <= N + 1 ->
            fleb (of_int i) steps = (i <=? N)).
  { intros i Hi. destruct (val_of_int_small i ltac:(change (2 ^ 24) with 16777216; lia))
      as [Fi Vi].
    rewrite F32.leb_value by assumption. rewrite Vi.
    destruct (Z.leb_spec i N), (Z.leb_spec (i * unit) (val steps));
      try reflexivity; unfold unit in *; lia. }
  induction fuel as [|fuel IH]; intros i x y Hi Hf.
  - assert (i = N + 1) by lia. subst i. cbn [dda_loop]. rewrite Cond by lia.
    destruct (Z.leb_spec (N + 1) N); [lia|]. exists []. cbn. split; [reflexivity|].
    split; lia.
  - cbn [dda_loop]. rewrite Cond by lia. destruct (Z.leb_spec i N) as [L | G].
    + destruct (Z.eqb_spec i INT_MAX) as [E | _]; [unfold INT_MAX in E; lia|].
      destruct (IH (i + 1) (fadd x xInc) (fadd y yInc) ltac:(lia) ltac:(lia))
        as (ps & E & Len & _).
      rewrite E. exists ((x, y) :: ps). split; [reflexivity|].
      cbn [length hd_error]. split; [lia | reflexivity].
    + exists []. cbn. split; [reflexivity|]. split; lia.
Qed.

(** X11.  For a finite step count below 16777215 and enough fuel, the DDA
    helper emits the start point first and then one point per whole step:
    [floor(steps) + 1] points in all. *)
Theorem dda_point_count (fuel : nat) (x1 y1 x2 y2 : float) :
  finite (drawLineDDA_steps x1 y1 x2 y2) = true ->
  val (drawLineDDA_steps x1 y1 x2 y2) < 16777215 * unit ->
  val (drawLineDDA_steps x1 y1 x2 y2) / unit < Z.of_nat fuel ->
  exists ps,
    drawLineDDA fuel x1 y1 x2 y2 = Some ((x1, y1) :: ps) /\
    drawLineDDA_Lamp fuel x1 y1 x2 y2 = Some ((x1, y1) :: ps) /\
    Z.of_nat (length ps) = val (drawLineDDA_steps x1 y1 x2 y2) / unit.
Proof.
  intros F B Hf. pose proof (steps_nonneg x1 y1 x2 y2) as P.
  pose proof (Z.div_pos (val (drawLineDDA_steps x1 y1 x2 y2)) unit P unit_pos) as Q.
  destruct (dda_loop_count (drawLineDDA_steps x1 y1 x2 y2)
              (fdiv (fsub x2 x1) (drawLineDDA_steps x1 y1 x2 y2))
              (fdiv (fsub y2 y1) (drawLineDDA_steps x1 y1 x2 y2))
              F ltac:(lia) fuel 0 x1 y1 ltac:(lia) ltac:(lia)) as (ps & E & Len & Hd).
  specialize (Hd Q). destruct ps as [|p ps]; [discriminate Hd|].
  cbn [hd_error] in Hd. injection Hd as ->.
  exists ps. split; [exact E|]. split; [exact E|].
  cbn [length] in Len. rewrite Nat2Z.inj_succ in Len.
  unfold Point in *. lia.
Qed.

Lemma dda_point_count_witness :
  exists ps,
    drawLineDDA 30 (of_int 3) (of_int 4) (lit 255 10) (of_int 10)
      = Some ((of_int 3, of_int 4) :: ps) /\
    Z.of_nat (length ps) = 22.
Proof.
  destruct (dda_point_count 30 (of_int 3) (of_int 4) (lit 255 10) (of_int 10)
              eq_refl ltac:(vm_compute; reflexivity) ltac:(vm_compute; reflexivity))
    as (ps & E & _ & L).
  exists ps. split; [exact E|]. rewrite L. vm_compute. reflexivity.
Defined.



(** X13.  A traffic signal never shows two lamps: for a finite timer and
    offset it shows exactly one, except that it is dark when the sum
    overflows; and a negative sum shows RED. *)
Theorem signal_shows_one_lamp (timer p : float) :
  finite timer = true -> finite p = true ->
  ((exists c, drawTrafficSignal timer p = [c]) /\ finite (fadd timer p) = true
   \/ drawTrafficSignal timer p = [] /\ finite (fadd timer p) = false) /\
  (finite (fadd timer p) = true -> val (fadd timer p) < 0 ->
   drawTrafficSignal timer p = [RED]).
Proof.
  intros Ft Fp. destruct (val_of_int_small 6 ltac:(cbn; lia)) as [F6 V6].
  pose proof unit_pos as HU.
  assert (T : finite (fadd timer p) = true ->
              finite (signal_t timer p) = true /\
              val (signal_t timer p) = Z.rem (val (fadd timer p)) (6 * unit)).
  { intros F. unfold signal_t. rewrite <- V6.
    apply F32.fmodf_value; [exact F | exact F6 | lia]. }
  split.
  - destruct (F32.add_value timer p Ft Fp) as [[F _] | [E _]].
    + left. split; [|exact F]. destruct (T F) as [Fs _].
      unfold drawTrafficSignal. rewrite (lamps_by_value _ Fs).
      destruct (_ <? _); [eexists; reflexivity|].
      destruct (_ <? _); eexists; reflexivity.
    + right. unfold drawTrafficSignal, signal_t. rewrite E.
      split; reflexivity.
  - intros F N. destruct (T F) as [Fs Vs].
    unfold drawTrafficSignal. rewrite (lamps_by_value _ Fs), Vs.
    assert (Z.rem (val (fadd timer p)) (6 * unit) <= 0).
    { pose proof (Z.rem_nonpos (val (fadd timer p)) (6 * unit) ltac:(lia) ltac:(lia)).
      assumption. }
    destruct (Z.ltb_spec (2 * Z.rem (val (fadd timer p)) (6 * unit)) (5 * unit));
      [reflexivity | lia].
Qed.

Lemma signal_shows_one_lamp_witness :
  drawTrafficSignal (of_int (-4)) (of_int 3) = [RED].
Proof.
  destruct (signal_shows_one_lamp (of_int (-4)) (of_int 3) eq_refl eq_refl) as [_ H].
  apply H; [reflexivity | vm_compute; reflexivity].
Defined.

(** * Multiplication, and the water streaks *)

Lemma exponent_from_magnitude s m e k :
  finite (S754_finite s m e) = true ->
  2 ^ k <= Z.abs (val (S754_finite s m e)) -> 0 <= k -> k - 173 < e.
Proof.
  intros F B Hk. pose proof (F32.finite_exponent _ _ _ F) as He.
  apply F32.finite_finite in F as [C _]. destruct (F32.canon_facts _ _ C) as (_ & D & _).
  pose proof (F32.dig_bounds m) as [_ Bm].
  pose proof (F32.pow2_le (dig m) 24 ltac:(pose proof (F32.dig_pos m); lia)) as Hd.
  cbn [val] in B. rewrite F32.abs_cond_Zopp in B.
  pose proof (F32.pow2_pos (e + 149) ltac:(lia)) as HU.
  rewrite Z.abs_eq in B by lia.
  destruct (Z_lt_le_dec (k - 173) e) as [|G]; [assumption|exfalso].
  pose proof (F32.pow2_le (e + 149 + 24) k ltac:(lia)) as Hp.
  rewrite (F32.pow2_split (e + 149) 24) in Hp by lia. nia.
Qed.

(** A product whose exponents add up to at least -149 is the rounding of
    the product of the mantissas. *)
Lemma mul_as_round sx mx ex sy my ey :
  finite (S754_finite sx mx ex) = true -> finite (S754_finite sy my ey) = true ->
  -149 <= ex + ey ->
  fmul (S754_finite sx mx ex) (S754_finite sy my ey)
  = binary_round 24 128 (xorb sx sy) (mx * my) (ex + ey).
Proof.
  intros Fx Fy H.
  pose proof (F32.finite_exponent _ _ _ Fx) as Hx.
  pose proof (F32.finite_exponent _ _ _ Fy) as Hy.
  apply F32.finite_finite in Fx as [Cx _]. apply F32.finite_finite in Fy as [Cy _].
  destruct (F32.canon_facts _ _ Cx) as (_ & _ & Nx).
  destruct (F32.canon_facts _ _ Cy) as (_ & _ & Ny).
  pose proof (F32.dig_bounds mx) as [Ax _]. pose proof (F32.dig_bounds my) as [Ay _].
  pose proof (F32.dig_bounds (mx * my)) as [_ Bp].
  assert (D : 24 <= dig (mx * my)).
  { destruct (Z_lt_le_dec (dig (mx * my)) 24) as [L|]; [exfalso | assumption].
    pose proof (F32.pow2_le (dig (mx * my)) 23 ltac:(pose proof (F32.dig_pos (mx * my)); lia))
      as Hp.
    rewrite Pos2Z.inj_mul in Bp.
    assert (-149 < ex \/ -149 < ey) as [E | E] by lia.
    - rewrite (Nx E) in Ax. change (2 ^ (24 - 1)) with (2 ^ 23) in Ax. nia.
    - rewrite (Ny E) in Ay. change (2 ^ (24 - 1)) with (2 ^ 23) in Ay. nia. }
  unfold binary_round. fold (dig (mx * my)).
  rewrite F32.shl_align_ge by (rewrite F32.fexp32_eq; lia).
  reflexivity.
Qed.

(** The product of two finite numbers, each zero or of magnitude at least
    [2^-51], is their exact product rounded. *)
Lemma mul_value x y :
  finite x = true -> finite y = true ->
  val x = 0 \/ 2 ^ 98 <= Z.abs (val x) ->
  val y = 0 \/ 2 ^ 98 <= Z.abs (val y) ->
  exists z, val x * val y = z * unit /\ rounds_to z (fmul x y).
Proof.
  intros Fx Fy Mx My.
  destruct x as [sx | sx | | sx mx ex]; try discriminate Fx;
    destruct y as [sy | sy | | sy my ey]; try discriminate Fy;
    try (exists 0; split; [cbn [val]; lia | left; split; [reflexivity | cbn; lia]]).
  assert (Nx : val (S754_finite sx mx ex) <> 0).
  { pose proof (F32.finite_exponent _ _ _ Fx).
    pose proof (F32.pow2_pos (ex + 149) ltac:(lia)).
    cbn [val]. destruct sx; cbn [cond_Zopp]; lia. }
  assert (Ny : val (S754_finite sy my ey) <> 0).
  { pose proof (F32.finite_exponent _ _ _ Fy).
    pose proof (F32.pow2_pos (ey + 149) ltac:(lia)).
    cbn [val]. destruct sy; cbn [cond_Zopp]; lia. }
  destruct Mx as [Mx | Mx]; [contradiction|]. destruct My as [My | My]; [contradiction|].
  pose proof (exponent_from_magnitude _ _ _ 98 Fx Mx ltac:(lia)) as Ex.
  pose proof (exponent_from_magnitude _ _ _ 98 Fy My ltac:(lia)) as Ey.
  pose proof (F32.finite_exponent _ _ _ Fx) as Hx.
  pose proof (F32.finite_exponent _ _ _ Fy) as Hy.
  rewrite (mul_as_round _ _ _ _ _ _ Fx Fy) by lia.
  exists (cond_Zopp (xorb sx sy) (Z.pos (mx * my) * 2 ^ (ex + ey + 149))). split.
  - cbn [val]. unfold unit.
    assert (E : Z.pos mx * 2 ^ (ex + 149) * (Z.pos my * 2 ^ (ey + 149))
                = Z.pos (mx * my) * 2 ^ (ex + ey + 149) * 2 ^ 149).
    { rewrite Pos2Z.inj_mul.
      assert (P : 2 ^ (ex + ey + 149) * 2 ^ 149 = 2 ^ (ex + 149) * 2 ^ (ey + 149)).
      { rewrite <- (F32.pow2_split (ex + ey + 149) 149) by lia.
        rewrite <- (F32.pow2_split (ex + 149) (ey + 149)) by lia. f_equal. lia. }
      rewrite <- (Z.mul_assoc _ (2 ^ (ex + ey + 149))), P. ring. }
    destruct sx, sy; cbn [xorb cond_Zopp]; lia.
  - destruct (F32.binary_round_value (xorb sx sy) (mx * my) (ex + ey) ltac:(lia))
      as [(F & E & _) | (I & B & _)].
    + left. split; [exact F|]. rewrite F32.abs_cond_Zopp.
      pose proof (F32.pow2_pos (ex + ey + 149) ltac:(lia)).
      rewrite (Z.abs_eq (Z.pos (mx * my) * _)) by lia. exact E.
    + right. rewrite F32.abs_cond_Zopp.
      pose proof (F32.pow2_pos (ex + ey + 149) ltac:(lia)).
      rewrite (Z.abs_eq (Z.pos (mx * my) * _)) by lia. split; [|exact B].
      rewrite I. f_equal. destruct (xorb sx sy); cbn [cond_Zopp]; symmetry;
        [apply Z.ltb_lt | apply Z.ltb_ge]; lia.
Qed.

Lemma update_granular s :
  bounded_state s -> clock_granular (update s).
Proof.
  intros (_ & _ & _ & _ & _ & (Fw & Bw)). unfold clock_granular.
  rewrite update_waterTime. destruct val_dt as [Fd Vd].
  destruct (add_finite (waterTime s) dt Fw Fd
              ltac:(rewrite Vd; unfold max_scaled, unit in *; lia)) as [F E].
  rewrite Vd in E. right. unfold unit in *. lia.
Qed.

Lemma run_granular es s s' :
  bounded_state s -> clock_granular s -> run es s = Some s' -> clock_granular s'.
Proof.
  revert s. induction es as [|e es IH]; intros s B G.
  - cbn. intros [= <-]. exact G.
  - cbn [run]. destruct (step e s) as [s1|] eqn:E; [|discriminate].
    destruct e as [|k]; cbn [step] in E.
    + injection E as <-. apply IH; [apply update_bounded; exact B|].
      apply update_granular. exact B.
    + apply IH; [eapply keyboard_bounded; eassumption|].
      destruct (keyboard_frame _ _ _ E) as (_ & _ & W & _).
      unfold clock_granular. rewrite W. exact G.
Qed.

(** The phase [i * a + waterTime * b] of a streak is finite and not
    negative. *)
Lemma streak_phase i a b wt :
  0 <= i < 40 -> 0 < a <= 100 -> 0 < b <= 100 ->
  finite wt = true -> 0 <= val wt <= 524288 * unit ->
  val wt = 0 \/ 2 ^ 98 <= Z.abs (val wt) ->
  finite (fadd (fmul (of_int i) (of_int a)) (fmul wt (of_int b))) = true /\
  0 <= val (fadd (fmul (of_int i) (of_int a)) (fmul wt (of_int b))).
Proof.
  intros Hi Ha Hb Fw Bw Gw.
  destruct (val_of_int_small i ltac:(cbn; lia)) as [Fi Vi].
  destruct (val_of_int_small a ltac:(cbn; lia)) as [Fa Va].
  destruct (val_of_int_small b ltac:(cbn; lia)) as [Fb Vb].
  pose proof unit_pos as HU.
  destruct (mul_value (of_int i) (of_int a) Fi Fa) as (z1 & E1 & R1).
  { rewrite Vi. unfold unit. lia. }
  { rewrite Va. unfold unit. lia. }
  destruct (mul_value wt (of_int b) Fw Fb Gw) as (z2 & E2 & R2).
  { rewrite Vb. unfold unit. lia. }
  rewrite Vi, Va in E1. rewrite Vb in E2.
  assert (Z1 : z1 = i * a * unit) by nia.
  assert (Z2 : z2 = val wt * b) by nia.
  assert (P1 : 0 <= i * a <= 4000) by nia.
  assert (B1 : 0 <= z1 <= 4000 * unit).
  { rewrite Z1. split; [apply Z.mul_nonneg_nonneg; lia|].
    apply Z.mul_le_mono_nonneg_r; lia. }
  assert (B2 : 0 <= z2 <= 52428800 * unit).
  { rewrite Z2. split; [apply Z.mul_nonneg_nonneg; lia|].
    pose proof (Z.mul_le_mono_nonneg (val wt) (524288 * unit) b 100
                  ltac:(lia) ltac:(lia) ltac:(lia) ltac:(lia)).
    lia. }
  clear P1.
  clear E1 E2 Z1 Z2.
  destruct (F32.rounds_to_finite _ _ R1 ltac:(unfold max_scaled, unit in *; lia)) as [F1 A1].
  destruct (F32.rounds_to_finite _ _ R2 ltac:(unfold max_scaled, unit in *; lia)) as [F2 A2].
  change (2 ^ 24) with 16777216 in A1, A2.
  destruct (add_finite _ _ F1 F2 ltac:(unfold max_scaled, unit in *; lia)) as [F A].
  split; [exact F|]. change (2 ^ 24) with 16777216 in A. lia.
Qed.

(** X14.  Along every run the anchor corner of each of the 40 reflection
    streaks lies inside the water band: [0 <= x < V_WIDTH] and
    [0 <= y < waterTopY], for every finite positive [waterTopY]. *)
Theorem streaks_inside_water (es : list Event) (s : State) (top : float) (p : Point) :
  run es initial = Some s ->
  finite top = true -> fltb (of_int 0) top = true ->
  In p (drawAnimatedWater_streaks (waterTime s) top) ->
  (fleb (of_int 0) (fst p) = true /\ fltb (fst p) V_WIDTH = true) /\
  (fleb (of_int 0) (snd p) = true /\ fltb (snd p) top = true).
Proof.
  intros R Ft Pt I.
  pose proof (run_bounded _ _ _ initial_bounded R) as B.
  assert (G : clock_granular s).
  { apply (run_granular es initial); [exact initial_bounded | left; reflexivity | exact R]. }
  destruct B as (_ & _ & _ & _ & _ & (Fw & Bw)). unfold clock_granular in G.
  unfold drawAnimatedWater_streaks in I. apply in_map_iff in I as (i & <- & Hi).
  apply in_seq in Hi. cbn [fst snd].
  assert (Z0 : finite (of_int 0) = true /\ val (of_int 0) = 0) by (split; reflexivity).
  destruct Z0 as [F0 V0].
  rewrite F32.ltb_value in Pt by assumption. rewrite V0 in Pt. apply Z.ltb_lt in Pt.
  destruct (val_of_int_small 800 ltac:(cbn; lia)) as [FW VW].
  pose proof unit_pos as HU.
  split.
  - destruct (streak_phase (Z.of_nat i) 63 40 _ ltac:(lia) ltac:(lia) ltac:(lia) Fw Bw G)
      as [Fc Bc].
    destruct (F32.fmodf_nonneg _ V_WIDTH Fc FW Bc
                ltac:(unfold V_WIDTH; rewrite VW; lia)) as [F E].
    fold (streak_x (Z.of_nat i) (waterTime s)) in F, E.
    rewrite F32.leb_value, F32.ltb_value by assumption.
    rewrite V0, E.
    pose proof (Z.mod_pos_bound
                  (val (fadd (fmul (of_int (Z.of_nat i)) (of_int 63))
                             (fmul (waterTime s) (of_int 40))))
                  (val V_WIDTH) ltac:(unfold V_WIDTH; rewrite VW; lia)) as M.
    split; [apply Z.leb_le | apply Z.ltb_lt]; lia.
  - destruct (streak_phase (Z.of_nat i) 14 22 _ ltac:(lia) ltac:(lia) ltac:(lia) Fw Bw G)
      as [Fc Bc].
    destruct (F32.fmodf_nonneg _ top Fc Ft Bc Pt) as [F E].
    fold (streak_y (Z.of_nat i) (waterTime s) top) in F, E.
    rewrite F32.leb_value, F32.ltb_value by assumption.
    rewrite V0, E.
    pose proof (Z.mod_pos_bound
                  (val (fadd (fmul (of_int (Z.of_nat i)) (of_int 14))
                             (fmul (waterTime s) (of_int 22))))
                  (val top) Pt) as M.
    split; [apply Z.leb_le | apply Z.ltb_lt]; lia.
Qed.

Lemma streaks_inside_water_witness :
  let s := ticks 3 initial in
  let p := (streak_x 7 (waterTime s), streak_y 7 (waterTime s) (of_int 120)) in
  (fleb (of_int 0) (fst p) = true /\ fltb (fst p) V_WIDTH = true) /\
  (fleb (of_int 0) (snd p) = true /\ fltb (snd p) (of_int 120) = true).
Proof.
  apply (streaks_inside_water [Tick; Tick; Tick] (ticks 3 initial) (of_int 120)).
  - reflexivity.
  - reflexivity.
  - reflexivity.
  - unfold drawAnimatedWater_streaks. apply in_map_iff. exists 7%nat.
    split; [reflexivity | apply in_seq; lia].
Defined.

(** * Axis-aligned lines *)

Lemma add_signed_zero x s :
  finite x = true ->
  finite (fadd x (S754_zero s)) = true /\ val (fadd x (S754_zero s)) = val x.
Proof.
  intros F.
  destruct x as [[|] | | | sx m e], s; try discriminate; split; try reflexivity; exact F.
Qed.

(** With a zero increment the loop keeps the coordinate it started from. *)
Lemma dda_loop_still_x s yInc steps fuel :
  forall i x y ps,
    finite x = true ->
    dda_loop fuel i x y (S754_zero s) yInc steps = Some ps ->
    forall p, In p ps -> finite (fst p) = true /\ val (fst p) = val x.
Proof.
  induction fuel as [|fuel IH]; intros i x y ps F E p I; cbn [dda_loop] in E.
  - destruct (fleb _ _); [discriminate|]. injection E as <-. destruct I.
  - destruct (fleb _ _); [|injection E as <-; destruct I].
    destruct (i =? INT_MAX); [discriminate|].
    destruct (dda_loop fuel _ _ _ _ _ _) as [qs|] eqn:Q; [|discriminate].
    injection E as <-. destruct I as [<- | I]; [split; [exact F | reflexivity]|].
    destruct (add_signed_zero x s F) as [F' V'].
    destruct (IH _ _ _ _ F' Q p I) as [Fp Vp]. split; [exact Fp | congruence].
Qed.

Lemma dda_loop_still_y s xInc steps fuel :
  forall i x y ps,
    finite y = true ->
    dda_loop fuel i x y xInc (S754_zero s) steps = Some ps ->
    forall p, In p ps -> finite (snd p) = true /\ val (snd p) = val y.
Proof.
  induction fuel as [|fuel IH]; intros i x y ps F E p I; cbn [dda_loop] in E.
  - destruct (fleb _ _); [discriminate|]. injection E as <-. destruct I.
  - destruct (fleb _ _); [|injection E as <-; destruct I].
    destruct (i =? INT_MAX); [discriminate|].
    destruct (dda_loop fuel _ _ _ _ _ _) as [qs|] eqn:Q; [|discriminate].
    injection E as <-. destruct I as [<- | I]; [split; [exact F | reflexivity]|].
    destruct (add_signed_zero y s F) as [F' V'].
    destruct (IH _ _ _ _ F' Q p I) as [Fp Vp]. split; [exact Fp | congruence].
Qed.

(** A loop whose step count is zero emits its start point only. *)
Lemma dda_loop_zero_steps fuel x y xInc yInc ps :
  dda_loop fuel 0 x y xInc yInc (S754_zero false) = Some ps -> ps = [(x, y)].
Proof.
  destruct fuel as [|fuel]; [discriminate|].
  cbn [dda_loop]. change (fleb (of_int 0) (S754_zero false)) with true.
  change (0 =? INT_MAX) with false. cbv iota.
  destruct fuel; cbn [dda_loop]; change (fleb (of_int (0 + 1)) (S754_zero false)) with false;
    cbv iota; intros [= <-]; reflexivity.
Qed.

Lemma dda_vertical fuel x1 y1 x2 y2 ps :
  finite x1 = true -> finite x2 = true -> feqb x1 x2 = true ->
  drawLineDDA_Lamp fuel x1 y1 x2 y2 = Some ps ->
  forall p, In p ps -> feqb (fst p) x1 = true.
Proof.
  intros F1 F2 E R p I.
  destruct (fsub_equal x1 x2 F1 F2 E) as [sx Hx].
  unfold drawLineDDA_Lamp in R. rewrite Hx in R. cbv zeta in R.
  assert (V : finite (fst p) = true /\ val (fst p) = val x1).
  { destruct (fsub y2 y1) as [sy | sy | | sy m e].
    - cbn [fabs SFabs] in R. change (fltb (S754_zero false) (S754_zero false)) with false in R.
      cbv iota in R. apply dda_loop_zero_steps in R. subst ps.
      destruct I as [<- | []]. split; [exact F1 | reflexivity].
    - cbn [fabs SFabs] in R.
      change (fltb (S754_infinity false) (S754_zero false)) with false in R. cbv iota in R.
      change (fdiv (S754_zero sx) (S754_infinity false)) with (S754_zero (xorb sx false)) in R.
      exact (dda_loop_still_x _ _ _ _ _ _ _ _ F1 R p I).
    - cbn [fabs SFabs] in R. change (fltb S754_nan (S754_zero false)) with false in R.
      cbv iota in R. destruct fuel; cbn [dda_loop] in R;
        change (fleb (of_int 0) S754_nan) with false in R; cbv iota in R;
        injection R as <-; destruct I.
    - cbn [fabs SFabs] in R.
      change (fltb (S754_finite false m e) (S754_zero false)) with false in R. cbv iota in R.
      change (fdiv (S754_zero sx) (S754_finite false m e))
        with (S754_zero (xorb sx false)) in R.
      exact (dda_loop_still_x _ _ _ _ _ _ _ _ F1 R p I). }
  destruct V as [Fp Vp]. rewrite F32.eqb_value by assumption. apply Z.eqb_eq. exact Vp.
Qed.

Lemma dda_horizontal fuel x1 y1 x2 y2 ps :
  finite y1 = true -> finite y2 = true -> feqb y1 y2 = true ->
  drawLineDDA_Lamp fuel x1 y1 x2 y2 = Some ps ->
  forall p, In p ps -> feqb (snd p) y1 = true.
Proof.
  intros F1 F2 E R p I.
  destruct (fsub_equal y1 y2 F1 F2 E) as [sy Hy].
  unfold drawLineDDA_Lamp in R. rewrite Hy in R. cbv zeta in R.
  assert (V : finite (snd p) = true /\ val (snd p) = val y1).
  { destruct (fsub x2 x1) as [sx | sx | | sx m e].
    - cbn [fabs SFabs] in R. change (fltb (S754_zero false) (S754_zero false)) with false in R.
      cbv iota in R. apply dda_loop_zero_steps in R. subst ps.
      destruct I as [<- | []]. split; [exact F1 | reflexivity].
    - cbn [fabs SFabs] in R.
      change (fltb (S754_zero false) (S754_infinity false)) with true in R. cbv iota in R.
      change (fdiv (S754_zero sy) (S754_infinity false)) with (S754_zero (xorb sy false)) in R.
      exact (dda_loop_still_y _ _ _ _ _ _ _ _ F1 R p I).
    - cbn [fabs SFabs] in R. change (fltb (S754_zero false) S754_nan) with false in R.
      cbv iota in R. apply dda_loop_zero_steps in R. subst ps.
      destruct I as [<- | []]. split; [exact F1 | reflexivity].
    - cbn [fabs SFabs] in R.
      change (fltb (S754_zero false) (S754_finite false m e)) with true in R. cbv iota in R.
      change (fdiv (S754_zero sy) (S754_finite false m e))
        with (S754_zero (xorb sy false)) in R.
      exact (dda_loop_still_y _ _ _ _ _ _ _ _ F1 R p I). }
  destruct V as [Fp Vp]. rewrite F32.eqb_value by assumption. apply Z.eqb_eq. exact Vp.
Qed.

(** X15.  The DDA helper keeps an axis-aligned line on its axis: when the
    end points have equal abscissas every emitted point has that abscissa,
    and when they have equal ordinates every emitted point has that
    ordinate (the degenerate one-point line included). *)
Theorem dda_axis_aligned (fuel : nat) (x1 y1 x2 y2 : float) (ps : list Point) :
  finite x1 = true -> finite y1 = true ->
  finite x2 = true -> finite y2 = true ->
  drawLineDDA_Lamp fuel x1 y1 x2 y2 = Some ps ->
  (feqb x1 x2 = true -> forall p, In p ps -> feqb (fst p) x1 = true) /\
  (feqb y1 y2 = true -> forall p, In p ps -> feqb (snd p) y1 = true).
Proof.
  intros F1 G1 F2 G2 R. split; intros E.
  - exact (dda_vertical fuel x1 y1 x2 y2 ps F1 F2 E R).
  - exact (dda_horizontal fuel x1 y1 x2 y2 ps G1 G2 E R).
Qed.

Lemma dda_axis_aligned_witness :
  exists ps,
    drawLineDDA_Lamp 200 (of_int 180) (of_int 120) (of_int 180) (of_int 290) = Some ps /\
    length ps = 171%nat /\
    forall p, In p ps -> feqb (fst p) (of_int 180) = true.
Proof.
  destruct (drawLineDDA_Lamp 200 (of_int 180) (of_int 120) (of_int 180) (of_int 290))
    as [ps|] eqn:R; [|vm_compute in R; discriminate R].
  exists ps. split; [reflexivity|]. split.
  - assert (L : option_map (@length Point)
                  (drawLineDDA_Lamp 200 (of_int 180) (of_int 120) (of_int 180) (of_int 290))
                = Some 171%nat) by (vm_compute; reflexivity).
    rewrite R in L. injection L as L. exact L.
  - exact (proj1 (dda_axis_aligned 200 (of_int 180) (of_int 120) (of_int 180) (of_int 290) ps
                    eq_refl eq_refl eq_refl eq_refl R) eq_refl).
Defined.

Lemma feqb_refl x : finite x = true -> feqb x x = true.
Proof. intros F. rewrite F32.eqb_value by assumption. apply Z.eqb_refl. Qed.

(** X16.  A lamp post is made of three straight strokes: the points of
    [drawDDALampPost] are those of the pole, all at abscissa [x], then those
    of the arm, all at height [groundY + 170], then those of the head, all
    at abscissa [x + 22]. *)
Theorem lamp_post_strokes (fuel : nat) (x groundY : float) (ps : list Point) :
  finite x = true -> finite groundY = true ->
  finite (fadd x (of_int 22)) = true ->
  finite (fadd groundY (of_int 170)) = true ->
  drawDDALampPost fuel x groundY = Some ps ->
  exists pole arm head,
    ps = pole ++ arm ++ head /\
    (forall p, In p pole -> feqb (fst p) x = true) /\
    (forall p, In p arm -> feqb (snd p) (fadd groundY (of_int 170)) = true) /\
    (forall p, In p head -> feqb (fst p) (fadd x (of_int 22)) = true).
Proof.
  intros Fx Fg Fx' Fa R.
  unfold drawDDALampPost, drawDDALampPost_calls in R. cbv zeta in R.
  cbn [drawSegments drawSegment] in R.
  destruct (drawLineDDA_Lamp fuel x groundY x _) as [pole|] eqn:E1; [|discriminate R].
  destruct (drawLineDDA_Lamp fuel x _ (fadd x (of_int 22)) _) as [arm|] eqn:E2;
    [|discriminate R].
  destruct (drawLineDDA_Lamp fuel (fadd x (of_int 22)) _ _ _) as [head|] eqn:E3;
    [|discriminate R].
  injection R as <-. exists pole, arm, head. rewrite app_nil_r.
  split; [reflexivity|]. split; [|split].
  - exact (dda_vertical _ _ _ _ _ _ Fx Fx (feqb_refl x Fx) E1).
  - exact (dda_horizontal _ _ _ _ _ _ Fa Fa (feqb_refl _ Fa) E2).
  - exact (dda_vertical _ _ _ _ _ _ Fx' Fx' (feqb_refl _ Fx') E3).
Qed.

Lemma lamp_post_strokes_witness :
  exists pole arm head,
    drawDDALampPost 171 (of_int 420) (of_int 120) = Some (pole ++ arm ++ head) /\
    (forall p, In p pole -> feqb (fst p) (of_int 420) = true) /\
    (forall p, In p arm -> feqb (snd p) (of_int 290) = true) /\
    (forall p, In p head -> feqb (fst p) (of_int 442) = true).
Proof.
  destruct (drawDDALampPost 171 (of_int 420) (of_int 120)) as [ps|] eqn:R;
    [|vm_compute in R; discriminate R].
  destruct (lamp_post_strokes 171 (of_int 420) (of_int 120) ps
              eq_refl eq_refl eq_refl eq_refl R) as (pole & arm & head & E & H1 & H2 & H3).
  exists pole, arm, head. split; [rewrite E; reflexivity|].
  split; [exact H1|]. split; [exact H2 | exact H3].
Defined.

(** * The water clock *)

Lemma water_step wt :
  finite wt = true -> 0 <= val wt <= 524288 * unit ->
  val wt <= val (fadd wt dt) /\
  (val wt <= 268435 * unit -> val wt < val (fadd wt dt)).
Proof.
  intros Fw Bw. destruct val_dt as [Fd Vd].
  destruct (add_finite wt dt Fw Fd ltac:(rewrite Vd; unfold max_scaled, unit in *; lia)) as [F E].
  rewrite Vd in E. change (2 ^ 24) with 16777216 in E.
  destruct (Z_le_gt_dec (val wt) (268435 * unit)) as [L | G].
  - assert (val wt < val (fadd wt dt)) by (unfold unit in *; lia). split; [lia | auto].
  - split; [|intros; lia].
    destruct (F32.grid wt 144 Fw ltac:(lia) ltac:(unfold unit in *; cbn [Z.add]; lia))
      as [j Hj].
    destruct (F32.grid (fadd wt dt) 144 F ltac:(lia)
                ltac:(unfold unit in *; cbn [Z.add]; lia)) as [j' Hj'].
    unfold unit in *. lia.
Qed.

Lemma run_water es :
  forall s s', bounded_state s -> run es s = Some s' ->
    val (waterTime s) <= val (waterTime s') /\
    (existsb (fun e => negb (is_key e)) es = true ->
     val (waterTime s) <= 268435 * unit ->
     val (waterTime s) < val (waterTime s')).
Proof.
  induction es as [|e es IH]; intros s s' B R.
  - cbn in R. injection R as <-. split; [lia | discriminate].
  - cbn [run] in R. destruct (step e s) as [s1|] eqn:E; [|discriminate R].
    destruct e as [|k]; cbn [step] in E.
    + injection E as <-.
      destruct (IH _ _ (update_bounded s B) R) as [M _].
      destruct B as (_ & _ & _ & _ & _ & (Fw & Bw)).
      destruct (water_step _ Fw Bw) as [W1 W2].
      rewrite update_waterTime in M. split; [lia|]. intros _ L. specialize (W2 L). lia.
    + destruct (IH _ _ (keyboard_bounded _ _ _ B E) R) as [M1 M2].
      destruct (keyboard_frame _ _ _ E) as (_ & _ & W & _). rewrite W in M1, M2.
      split; [exact M1|]. cbn [existsb is_key negb orb]. exact M2.
Qed.

(** X17.  The water clock never runs backwards: along every run, paused or
    not, waterTime does not decrease, and while it is at most 268435 a run
    that contains a tick moves it strictly forward. *)
Theorem water_clock_monotone (es : list Event) (s s' : State) :
  bounded_state s -> run es s = Some s' ->
  fleb (waterTime s) (waterTime s') = true /\
  (existsb (fun e => negb (is_key e)) es = true ->
   fleb (waterTime s) (of_int 268435) = true ->
   fltb (waterTime s) (waterTime s') = true).
Proof.
  intros B R. destruct (run_water es s s' B R) as [M1 M2].
  pose proof (run_bounded _ _ _ B R) as B'.
  destruct B as (_ & _ & _ & _ & _ & (Fw & _)).
  destruct B' as (_ & _ & _ & _ & _ & (Fw' & _)).
  destruct (val_of_int_small 268435 ltac:(cbn; lia)) as [Fc Vc].
  split.
  - rewrite F32.leb_value by assumption. apply Z.leb_le. exact M1.
  - intros T L. rewrite F32.leb_value in L by assumption. apply Z.leb_le in L.
    rewrite Vc in L. rewrite F32.ltb_value by assumption. apply Z.ltb_lt. auto.
Qed.

Lemma water_clock_monotone_witness :
  fltb (waterTime initial) (waterTime (update (update initial))) = true.
Proof.
  exact (proj2 (water_clock_monotone [Tick; Tick] initial
                  (update (update initial)) initial_bounded eq_refl) eq_refl eq_refl).
Defined.
